(** * pbmm2: the chunked alignment pipeline of [AlignWorkflow.cpp]

    A shallow embedding of [src/AlignWorkflow.cpp]: the batching loop of
    [AlignWorkflow::Runner], the quality filter, the writer side
    ([WriteRecords], [WriterThread]), the positional-argument check and the
    shutdown order of the driver.

    Conventions.
    - [int32_t] and [int64_t] values are integers in [Z]; every arithmetic
      result is passed through [wrap32] / [wrap64] (two's complement).
    - [double] values are the binary64 numbers of [PrimFloat].
    - A [std::unique_ptr<std::vector<BamRecord>>] that may be null is an
      [option (list BamRecord)]. *)

From Stdlib Require Import ZArith Lia Bool String Ascii Floats.
From stdpp Require Import base list.

Local Open Scope Z_scope.

(** ** Machine integers *)

Definition wrap (w : Z) (x : Z) : Z :=
  (x + 2 ^ (w - 1)) mod 2 ^ w - 2 ^ (w - 1).

Definition wrap32 : Z -> Z := wrap 32.
Definition wrap64 : Z -> Z := wrap 64.

Definition in_int32 (x : Z) : Prop := - 2 ^ 31 <= x < 2 ^ 31.
Definition in_int64 (x : Z) : Prop := - 2 ^ 63 <= x < 2 ^ 63.

(** ** Records *)

(** The part of [BAM::BamRecord] the workflow looks at.  [qname] stands for
    the payload, which the pipeline never inspects. *)
Record BamRecord : Type := mkBamRecord {
  qname : string;
  ReferenceStart : Z;      (* Position, an int32_t *)
  ReferenceEnd : Z;        (* Position, an int32_t *)
  NumDeletedBases : Z;     (* size_t *)
  NumInsertedBases : Z;    (* size_t *)
  NumMismatches : Z        (* size_t *)
}.

(** A default-constructed [BamRecord]: unmapped, both positions are
    pbbam's [UnmappedPosition] (-1), no payload. *)
Definition BamRecord_default : BamRecord :=
  mkBamRecord EmptyString (-1) (-1) 0 0 0.

(** [RecordsType]: a possibly null pointer to a vector of records. *)
Definition RecordsType : Type := option (list BamRecord).

(** ** The batching loop of [AlignWorkflow::Runner] (lines 300-319) *)

Module Batcher.
Section Loop.
Context {A : Type}.
(** The value of a default-constructed element of the buffer. *)
Variable dflt : A.
(** [chunkSize], 100 in the source. *)
Variable chunkSize : nat.

(** [std::make_unique<std::vector<BAM::BamRecord>>(chunkSize)] *)
Definition fresh_buffer : list A := replicate chunkSize dflt.

(** [records->resize(i)] *)
Definition resize (i : nat) (records : list A) : list A :=
  take i records ++ replicate (i - length records) dflt.

(** The [while] loop.  The input cursor is the list of the records it
    still has to yield; [qryRdr->GetNext(slot)] on a non-empty cursor
    stores the next record in [slot] and returns true, and on an exhausted
    cursor returns false and leaves [slot] as it is.  The slot is
    [records[i++]], which increments [i] on every call, also on the one
    that returns false.  [queue] collects the vectors handed to
    [queue.ProduceWith], oldest first.  The index [i] stays within
    [0..chunkSize], so it is kept as a [nat]; the slot written is always
    inside the buffer when [chunkSize] is positive. *)
Fixpoint batch_loop (input : list A) (i : nat) (records : list A)
    (queue : list (list A)) : nat * list A * list (list A) :=
  match input with
  | [] => (S i, records, queue)
  | r :: rest =>
      let records := <[i := r]> records in
      let i := S i in
      if (chunkSize <=? i)%nat
      then batch_loop rest 0%nat fresh_buffer (queue ++ [records])
      else batch_loop rest i records queue
  end.

(** The loop followed by the "terminal records" block; the result is the
    sequence of batches submitted to the work queue. *)
Definition Runner_batches (input : list A) : list (list A) :=
  let '(i, records, queue) := batch_loop input 0%nat fresh_buffer [] in
  if (0 <? i)%nat then queue ++ [resize i records] else queue.

End Loop.
End Batcher.

(** ** Doubles *)

Module Double.
Local Open Scope float_scope.

(** Conversion of an [int32_t] to [double]. *)
Definition of_Z (z : Z) : float :=
  if (z <? 0)%Z then - PrimFloat.of_uint63 (Uint63.of_Z (- z))
  else PrimFloat.of_uint63 (Uint63.of_Z z).

Definition two52 : float := 4503599627370496.

(** [std::round] of <cmath>: the nearest integer, halfway cases away from
    zero; NaN, the infinities and the zeros are returned as they are. *)
Definition round (x : float) : float :=
  match classify x with
  | NaN | PInf | NInf | PZero | NZero => x
  | _ =>
      let a := abs x in
      if two52 <=? a then x
      else
        let r := (a + two52) - two52 in
        let f := if a <? r then r - 1 else r in
        let t := if (a - f) <? 0.5 then f else f + 1 in
        if x <? 0 then - t else t
  end.

Definition is_nan (x : float) : bool :=
  match classify x with NaN => true | _ => false end.

Definition is_inf (x : float) : bool :=
  match classify x with PInf | NInf => true | _ => false end.
End Double.

(** ** Settings *)

(** The fields of [AlignSettings] (declared in [AlignSettings.h]) that the
    workflow reads. *)
Record AlignSettings : Type := mkAlignSettings {
  MinAccuracy : float;      (* compared with a double, as a double *)
  MinAlignmentLength : Z;   (* int32_t *)
  NumThreads : Z;           (* int32_t *)
  Pbi : bool
}.

(** ** Per-record quantities shared by the filter and the writer *)

(** [const int32_t span = aln.ReferenceEnd() - aln.ReferenceStart();] *)
Definition span (aln : BamRecord) : Z :=
  wrap32 (ReferenceEnd aln - ReferenceStart aln).

(** [const int32_t nErr = aln.NumDeletedBases() + aln.NumInsertedBases()
    + aln.NumMismatches();]  The sum is taken in [size_t] and narrowed to
    32 bits; narrowing the 64-bit sum equals narrowing the exact sum. *)
Definition nErr (aln : BamRecord) : Z :=
  wrap32 (NumDeletedBases aln + NumInsertedBases aln + NumMismatches aln).

(** [1.0 - 1.0 * nErr / span], in doubles. *)
Definition similarity (aln : BamRecord) : float :=
  (1 - 1 * Double.of_Z (nErr aln) / Double.of_Z (span aln))%float.

(** ** The filter (lines 263-269) *)

Definition filter (settings : AlignSettings) (aln : BamRecord) : bool :=
  if (span aln <=? 0) || (span aln <? MinAlignmentLength settings) then false
  else if (similarity aln <? MinAccuracy settings)%float then false
  else true.

(** Modelled from the spec: [MM2Helper::Align] is declared in [MM2Helper.h],
    which is not part of the sources at hand.  The transform maps a batch
    and the filter predicate to an alignment result; the candidate records
    that fail the predicate are left out of the result, those that pass are
    kept in order.  [mm_map] is the opaque aligner: the candidate alignment
    records of one read. *)
Definition Align (mm_map : BamRecord -> list BamRecord)
    (filter : BamRecord -> bool) (recs : list BamRecord) : RecordsType :=
  Some (List.filter filter (concat (map mm_map recs))).

(** ** The writer side (lines 36-69) *)

Record Summary : Type := mkSummary {
  NumAlns : Z;          (* int32_t *)
  Bases : Z;            (* int64_t *)
  Similarity : float    (* double *)
}.

(** [Summary s;] with the default member initialisers. *)
Definition Summary_init : Summary := mkSummary 0 0 0%float.

(** What [WriteRecords] reads and writes through its reference parameters:
    the records written to [out], the summary [s], the counter
    [alignedRecords], and the counts logged at every thousandth record. *)
Record Sink : Type := mkSink {
  out : list BamRecord;
  s : Summary;
  alignedRecords : Z;   (* int64_t *)
  progress : list Z
}.

Definition Sink_init : Sink := mkSink [] Summary_init 0 [].

(** The body of the [for] loop of [WriteRecords] for one record. *)
Definition write_record (st : Sink) (aln : BamRecord) : Sink :=
  let sm := s st in
  let sm := mkSummary (wrap32 (NumAlns sm + 1))
                      (wrap64 (Bases sm + span aln))
                      (Similarity sm + similarity aln)%float in
  let n := wrap64 (alignedRecords st + 1) in
  mkSink (out st ++ [aln]) sm n
         (if Z.rem n 1000 =? 0 then progress st ++ [n] else progress st).

Definition WriteRecords (st : Sink) (results : RecordsType) : Sink :=
  match results with
  | None => st
  | Some alns => fold_left write_record alns st
  end.

(** The three values logged by [WriterThread] when the queue is drained. *)
Record Report : Type := mkReport {
  rep_alignments : Z;
  rep_bases : Z;
  rep_concordance : float
}.

(** [std::round(1000.0 * s.Similarity / s.NumAlns) / 10.0] *)
Definition mean_concordance (sm : Summary) : float :=
  (Double.round (1000 * Similarity sm / Double.of_Z (NumAlns sm)) / 10)%float.

Definition final_report (sm : Summary) : Report :=
  mkReport (NumAlns sm) (Bases sm) (mean_concordance sm).

(** [WriterThread]: [results] are the values [queue.ConsumeWith] passes to
    [WriteRecords], in the order it delivers them, up to the call that
    returns false. *)
Definition WriterThread (results : list RecordsType) : Sink * Report :=
  let st := fold_left WriteRecords results Sink_init in
  (st, final_report (s st)).

(** ** Division with an explicit zero check

    The same computations with every division by [span] routed through
    [div_by], which has no result when the divisor is zero. *)

Definition div_by (x : float) (d : Z) : option float :=
  if d =? 0 then None else Some (x / Double.of_Z d)%float.

Definition similarity_checked (aln : BamRecord) : option float :=
  q ← div_by (1 * Double.of_Z (nErr aln))%float (span aln);
  Some (1 - q)%float.

Definition filter_checked (settings : AlignSettings) (aln : BamRecord)
    : option bool :=
  if (span aln <=? 0) || (span aln <? MinAlignmentLength settings)
  then Some false
  else
    sim ← similarity_checked aln;
    Some (if (sim <? MinAccuracy settings)%float then false else true).

Definition write_record_checked (st : Sink) (aln : BamRecord) : option Sink :=
  sim ← similarity_checked aln;
  let sm := s st in
  let sm := mkSummary (wrap32 (NumAlns sm + 1))
                      (wrap64 (Bases sm + span aln))
                      (Similarity sm + sim)%float in
  let n := wrap64 (alignedRecords st + 1) in
  Some (mkSink (out st ++ [aln]) sm n
          (if Z.rem n 1000 =? 0 then progress st ++ [n] else progress st)).

Definition WriteRecords_checked (st : Sink) (results : RecordsType)
    : option Sink :=
  match results with
  | None => Some st
  | Some alns => foldl (fun acc aln => st ← acc; write_record_checked st aln)
                       (Some st) alns
  end.

(** ** [CheckPositionalArgs] (lines 71-138) *)

(** [BAM::DataSet::TypeEnum] of pbbam. *)
Inductive TypeEnum : Type :=
  | GENERIC | ALIGNMENT | BARCODE | CONSENSUS_ALIGNMENT | CONSENSUS_READ
  | CONTIG | HDF_SUBREAD | REFERENCE | SUBREAD.

(** What the function asks of the outside world: [Utility::FileExists], the
    type of the [BAM::DataSet] opened on a path, and its [FastaFiles()]. *)
Record World : Type := mkWorld {
  FileExists : string -> bool;
  DataSet_Type : string -> TypeEnum;
  DataSet_FastaFiles : string -> list string;
  (* [Utility::FileExtension] *)
  FileExtension : string -> string;
  (* the records [BamQuery] yields for a dataset *)
  DataSet_Records : string -> list BamRecord
}.

(** A call either returns or ends the process through [std::exit]. *)
Inductive outcome (A : Type) : Type :=
  | Returns (a : A)
  | Exits (status : Z).
Arguments Returns {A} a.
Arguments Exits {A} status.

Definition EXIT_FAILURE : Z := 1.

(** [boost::algorithm::ends_with] *)
Definition ends_with (str suffix : string) : bool :=
  let n := String.length str in
  let m := String.length suffix in
  if (m <=? n)%nat then String.eqb (substring (n - m) m str) suffix else false.

Definition CheckPositionalArgs (w : World) (args : list string)
    : outcome (string * string * string) :=
  match args with
  | inputFile :: referenceFiles :: rest =>
      if negb (FileExists w inputFile) then Exits EXIT_FAILURE
      else
        match DataSet_Type w inputFile with
        | SUBREAD | CONSENSUS_READ =>
            if negb (FileExists w referenceFiles) then Exits EXIT_FAILURE
            else
              let finish (reference : string) :=
                let out :=
                  match rest with
                  | [third] => third       (* args.size() == 3 *)
                  | _ => "-"%string
                  end in
                Returns (inputFile, reference, out) in
              if ends_with referenceFiles ".mmi" then finish referenceFiles
              else
                match DataSet_Type w referenceFiles with
                | REFERENCE =>
                    match DataSet_FastaFiles w referenceFiles with
                    | [fasta] => finish fasta   (* size() == 1, front() *)
                    | _ => Exits EXIT_FAILURE
                    end
                | _ => Exits EXIT_FAILURE
                end
        | _ => Exits EXIT_FAILURE
        end
  | _ => Exits EXIT_FAILURE                 (* args.size() < 2 *)
  end.

(** ** The driver: the pipeline scope of [Runner] (lines 296-331) *)

(** The calls the driver thread makes, in program order, from the creation
    of the queue to the return. *)
Inductive call : Type :=
  | ProduceWith (batch : list BamRecord)
  | Finalize
  | Join
  | CreatePbi
  | CreateDataSet
  | ReturnSuccess.

(** The calls that follow the pipeline scope. *)
Definition post_processing (c : call) : Prop :=
  c = CreatePbi \/ c = CreateDataSet \/ c = ReturnSuccess.

(** [static constexpr const int32_t chunkSize = 100;] *)
Definition chunkSize : nat := 100.

Section Driver.
Variable settings : AlignSettings.
Variable mm_map : BamRecord -> list BamRecord.
(** [outputIsXML], computed from the output path before the pipeline. *)
Variable outputIsXML : bool.
(** The records the input cursor [qryRdr] yields. *)
Variable input : list BamRecord.

Definition batches : list (list BamRecord) :=
  Batcher.Runner_batches BamRecord_default chunkSize input.

Definition Runner_calls : list call :=
  map ProduceWith batches
  ++ [Finalize; Join]
  ++ (if Pbi settings then [CreatePbi] else [])
  ++ (if outputIsXML then [CreateDataSet] else [])
  ++ [ReturnSuccess].

(** The driver thread, the queue and the writer thread together.
    [pending] is the rest of the driver's program and [done] the calls it
    has completed; [queued] holds the results of the submitted batches
    that the writer has not consumed yet; [consumed] lists the results
    the writer has passed to [WriteRecords]; [writer_exited] is set when
    [WriterThread] returns, which destroys the [BamWriter] it owns and so
    flushes and closes the output file. *)
Record system : Type := mkSystem {
  pending : list call;
  done : list call;
  queued : list RecordsType;
  finalized : bool;
  consumed : list RecordsType;
  sink : Sink;
  writer_exited : bool
}.

Definition system_init : system :=
  mkSystem Runner_calls [] [] false [] Sink_init false.

Definition advance (st : system) (c : call) (rest : list call) : system :=
  mkSystem rest (done st ++ [c]) (queued st) (finalized st)
           (consumed st) (sink st) (writer_exited st).

(** Modelled from the spec: the work queue is pbcopper's
    [Parallel::WorkQueue] and the thread is a [std::thread], both outside
    the sources at hand.  One step of either thread: [ProduceWith] blocks
    while the queue holds [NumThreads] items and otherwise queues the
    result of [Align] on the batch; [Finalize] closes the queue;
    [ConsumeWith] hands some queued result to [WriteRecords], in no
    particular order, and reports the end once the queue is finalized and
    empty, upon which [WriterThread] returns; [join] returns once
    [WriterThread] has returned. *)
Inductive step : system -> system -> Prop :=
  | step_produce st batch rest :
      pending st = ProduceWith batch :: rest ->
      Z.of_nat (length (queued st)) < NumThreads settings ->
      step st (mkSystem rest (done st ++ [ProduceWith batch])
                 (queued st ++ [Align mm_map (filter settings) batch])
                 (finalized st) (consumed st) (sink st) (writer_exited st))
  | step_finalize st rest :
      pending st = Finalize :: rest ->
      step st (mkSystem rest (done st ++ [Finalize]) (queued st) true
                 (consumed st) (sink st) (writer_exited st))
  | step_join st rest :
      pending st = Join :: rest ->
      writer_exited st = true ->
      step st (advance st Join rest)
  | step_after st c rest :
      pending st = c :: rest ->
      post_processing c ->
      step st (advance st c rest)
  | step_consume st before r after :
      writer_exited st = false ->
      queued st = before ++ r :: after ->
      step st (mkSystem (pending st) (done st) (before ++ after)
                 (finalized st) (consumed st ++ [r])
                 (WriteRecords (sink st) r) (writer_exited st))
  | step_writer_exit st :
      writer_exited st = false ->
      finalized st = true ->
      queued st = [] ->
      step st (mkSystem (pending st) (done st) (queued st) (finalized st)
                 (consumed st) (sink st) true).

Inductive reachable : system -> Prop :=
  | reachable_init : reachable system_init
  | reachable_step st st' : reachable st -> step st st' -> reachable st'.

(** The invariant of the system: the driver has completed the first [k]
    calls of its program; the queue is finalized once call number
    [length batches] (the [Finalize]) is completed; the results consumed
    or still queued are those of the batches submitted; the writer's
    state is [WriteRecords] folded over what it consumed; the writer
    exits only on a finalized, empty queue; and the driver is past the
    [Join] only if the writer has exited. *)
Definition system_inv (st : system) : Prop :=
  exists k : nat,
    done st = take k Runner_calls
    /\ pending st = drop k Runner_calls
    /\ (finalized st = true <-> (length batches < k)%nat)
    /\ consumed st ++ queued st
       ≡ₚ map (Align mm_map (filter settings)) (take k batches)
    /\ sink st = fold_left WriteRecords (consumed st) Sink_init
    /\ (writer_exited st = true -> finalized st = true /\ queued st = [])
    /\ ((length batches + 1 < k)%nat -> writer_exited st = true).

End Driver.

(** [Runner] as the driver thread sees it: the outcome of the checks that
    precede the pipeline and, when they pass, the calls of the pipeline
    scope and after.  [OutputFilePrefix] ends the process when the output
    path has neither the extension xml nor bam. *)
Definition Runner (w : World) (settings : AlignSettings) (args : list string)
    : outcome (list call) :=
  match CheckPositionalArgs w args with
  | Exits status => Exits status
  | Returns (qryFile, refFile, outFile) =>
      let pipeline (outputIsXML : bool) :=
        Returns (Runner_calls settings outputIsXML (DataSet_Records w qryFile)) in
      if String.eqb outFile "-" then pipeline false
      else
        let outputExt := FileExtension w outFile in
        if String.eqb outputExt "xml" then pipeline true
        else if String.eqb outputExt "bam" then pipeline false
        else Exits EXIT_FAILURE
  end.

(** The writer loop with checked divisions. *)
Definition WriterThread_checked (results : list RecordsType) : option Sink :=
  foldl (fun acc r => st ← acc; WriteRecords_checked st r)
        (Some Sink_init) results.

(** The records of a sequence of results, absent results counting for
    nothing. *)
Definition flat_results (results : list RecordsType) : list BamRecord :=
  concat (map (fun r : RecordsType => default [] r) results).

(** The sum of the spans of a list of records. *)
Definition total_span (alns : list BamRecord) : Z :=
  fold_right (fun aln acc => span aln + acc) 0 alns.

(** The sum of the similarities, added to [acc] from left to right as the
    writer does (addition of doubles is not associative). *)
Definition add_similarities (acc : float) (alns : list BamRecord) : float :=
  fold_left (fun acc aln => (acc + similarity aln)%float) alns acc.

(** The conditions under which the positional arguments are refused, as the
    documentation of the command line lists them. *)
Definition refused (w : World) (args : list string) : Prop :=
  (length args < 2)%nat
  \/ exists inputFile referenceFiles rest,
       args = inputFile :: referenceFiles :: rest
       /\ (FileExists w inputFile = false
           \/ FileExists w referenceFiles = false
           \/ (DataSet_Type w inputFile <> SUBREAD
               /\ DataSet_Type w inputFile <> CONSENSUS_READ)
           \/ (ends_with referenceFiles ".mmi" = false
               /\ (DataSet_Type w referenceFiles <> REFERENCE
                   \/ length (DataSet_FastaFiles w referenceFiles) <> 1%nat))).

(** The integer fields of the writer's state hold values of their C++
    types. *)
Definition Sink_wf (st : Sink) : Prop :=
  in_int32 (NumAlns (s st)) /\ in_int64 (Bases (s st))
  /\ in_int64 (alignedRecords st).

(** ** The batching loop with checked vector accesses

    [batch_loop] again, with no result as soon as the slot [records[i]]
    handed to [GetNext] lies outside the vector (the reference is formed on
    every call, also on the one that returns false). *)

Fixpoint batch_loop_checked {A : Type} (dflt : A) (chunkSize : nat)
    (input : list A) (i : nat) (records : list A) (queue : list (list A))
    : option (nat * list A * list (list A)) :=
  if (length records <=? i)%nat then None
  else
    match input with
    | [] => Some (S i, records, queue)
    | r :: rest =>
        let records := <[i := r]> records in
        let i := S i in
        if (chunkSize <=? i)%nat
        then batch_loop_checked dflt chunkSize rest 0%nat
               (Batcher.fresh_buffer dflt chunkSize) (queue ++ [records])
        else batch_loop_checked dflt chunkSize rest i records queue
    end.

(** The loop and the "terminal records" block; [resize] is required not to
    grow the vector, so that no slot is created after the loop. *)
Definition Runner_batches_checked {A : Type} (dflt : A) (chunkSize : nat)
    (input : list A) : option (list (list A)) :=
  '(i, records, queue) ←
    batch_loop_checked dflt chunkSize input 0%nat
      (Batcher.fresh_buffer dflt chunkSize) [];
  if (0 <? i)%nat
  then if (i <=? length records)%nat
       then Some (queue ++ [Batcher.resize dflt i records])
       else None
  else Some queue.

(** ** Strings: the boost and STL calls of the output naming *)

(** [std::toupper] in the "C" locale, which [boost::is_iequal] applies to
    both characters it compares. *)
Definition to_upper (c : ascii) : ascii :=
  let n := nat_of_ascii c in
  if (97 <=? n)%nat && (n <=? 122)%nat then ascii_of_nat (n - 32) else c.

Definition iequal (a b : ascii) : bool :=
  Ascii.eqb (to_upper a) (to_upper b).

(** [istrip search str] is what follows [search] in [str] when [str] starts
    with [search] up to the case of the letters. *)
Fixpoint istrip (search str : string) : option string :=
  match search, str with
  | EmptyString, _ => Some str
  | String a search', String b str' =>
      if iequal a b then istrip search' str' else None
  | String _ _, EmptyString => None
  end.

(** [ireplace_last_opt input search format] is [input] with its last
    occurrence of [search] (up to case) replaced by [format], when there is
    an occurrence. *)
Fixpoint ireplace_last_opt (input search format : string) : option string :=
  match input with
  | EmptyString => option_map (String.append format) (istrip search input)
  | String c rest =>
      match ireplace_last_opt rest search format with
      | Some rest' => Some (String c rest')
      | None => option_map (String.append format) (istrip search input)
      end
  end.

(** [boost::ireplace_last(input, search, format)]: the input is left as it
    is when [search] does not occur in it. *)
Definition ireplace_last (input search format : string) : string :=
  default input (ireplace_last_opt input search format).

(** Whether [search] occurs in [str], up to case. *)
Definition icontains (search str : string) : bool :=
  match ireplace_last_opt str search EmptyString with
  | Some _ => true
  | None => false
  end.

(** What follows the last "/" of [str], when it has one. *)
Fixpoint after_last_slash (str : string) : option string :=
  match str with
  | EmptyString => None
  | String c rest =>
      match after_last_slash rest with
      | Some name => Some name
      | None => if Ascii.eqb c "/" then Some rest else None
      end
  end.

(** The file name of [CreateDataSet]: when the path has a "/", the last
    piece of [boost::split] on "/", otherwise the path. *)
Definition last_piece (path : string) : string :=
  default path (after_last_slash path).

(** ** [OutputFilePrefix] (lines 199-215) *)

Definition OutputFilePrefix (w : World) (outputFile : string)
    : outcome string :=
  let outputExt := FileExtension w outputFile in
  if String.eqb outputExt "xml" then
    let prefix := ireplace_last outputFile ".consensusalignmentset.xml" "" in
    Returns (ireplace_last prefix ".alignmentset.xml" "")
  else if String.eqb outputExt "bam" then
    let prefix := ireplace_last outputFile ".bam" "" in
    Returns (ireplace_last prefix ".subreads" "")
  else Exits EXIT_FAILURE.

(** ** [CreateDataSet] (lines 151-197) *)

(** A call either completes or throws a [std::runtime_error]. *)
Inductive raised (A : Type) : Type :=
  | Completes (a : A)
  | Throws (what : string).
Arguments Completes {A} a.
Arguments Throws {A} what.

(** What the function [CreateDataSet] puts in the dataset and where it saves it: the
    type, the metatype and path of the one external resource, the path of
    its index when there is one, the two names, and the path of the XML
    file.  The six namespace attributes are constants and left out. *)
Record DataSetXml : Type := mkDataSetXml {
  ds_type : TypeEnum;
  ds_metatype : string;
  ds_resource : string;
  ds_index : option string;
  ds_name : string;
  ds_timestamped_name : string;
  ds_path : string
}.

(** The function [CreateDataSet]; the name [CreateDataSet] itself is the
    driver's call.  [timestamp] is the value of [BAM::CurrentTimestamp()]. *)
Definition CreateDataSetFile (timestamp : string) (type : TypeEnum)
    (outputFile : string) (settings : AlignSettings) : raised DataSetXml :=
  let save (metatype outputType : string) :=
    let fileName := last_piece outputFile in
    Completes
      (mkDataSetXml type metatype (fileName ++ ".bam")
         (if Pbi settings then Some (fileName ++ ".bam.pbi") else None)
         fileName
         (fileName ++ "-" ++ timestamp)
         (outputFile ++ "." ++ outputType ++ ".xml"))%string in
  match type with
  | SUBREAD => save "PacBio.AlignmentFile.AlignmentBamFile" "alignmentset"
  | CONSENSUS_READ =>
      save "PacBio.AlignmentFile.ConsensusAlignmentBamFile"
           "consensusalignmentset"
  | _ => Throws "Unsupported input type"
  end%string.

(** ** The files of [Runner] (lines 240-261 and 325-331) *)

(** The file the alignments are written to, the paths [Runner] warns about
    because they exist already, the BAM file a PacBio index is built for,
    and the outcome of [CreateDataSetFile] when it is called. *)
Record RunnerFiles : Type := mkRunnerFiles {
  alnFile : string;
  overwrite_warnings : list string;
  pbi_built_for : option string;
  dataset : option (raised DataSetXml)
}.

Definition Runner_files (w : World) (timestamp : string)
    (settings : AlignSettings) (args : list string) : outcome RunnerFiles :=
  match CheckPositionalArgs w args with
  | Exits status => Exits status
  | Returns (qryFile, refFile, outFile) =>
      let finish (alnFile outputFilePrefix : string) (outputIsXML : bool)
                 (warnings : list string) :=
        Returns
          (mkRunnerFiles alnFile warnings
             (if Pbi settings then Some alnFile else None)
             (if outputIsXML
              then Some (CreateDataSetFile timestamp (DataSet_Type w qryFile)
                           outputFilePrefix settings)
              else None)) in
      if String.eqb outFile "-" then finish "-"%string EmptyString false []
      else
        match OutputFilePrefix w outFile with
        | Exits status => Exits status
        | Returns outputFilePrefix =>
            let outputIsXML := String.eqb (FileExtension w outFile) "xml" in
            let alnFile :=
              if outputIsXML then (outputFilePrefix ++ ".bam")%string
              else outFile in
            let warnings :=
              (if FileExists w alnFile then [alnFile] else [])
              ++ (if negb (String.eqb alnFile outFile) && FileExists w outFile
                  then [outFile] else []) in
            finish alnFile outputFilePrefix outputIsXML warnings
        end
  end.

(** ** Runs of the system *)

(** Zero or more steps. *)
Inductive steps (settings : AlignSettings)
    (mm_map : BamRecord -> list BamRecord) : system -> system -> Prop :=
  | steps_refl st : steps settings mm_map st st
  | steps_step st st' st'' :
      step settings mm_map st st' ->
      steps settings mm_map st' st'' ->
      steps settings mm_map st st''.

(** Both threads are finished: the driver has made all its calls and the
    writer thread has returned. *)
Definition completed (st : system) : Prop :=
  pending st = [] /\ writer_exited st = true.

(** The counts at which a writer that starts from zero logs its progress
    while it writes [n] records. *)
Definition progress_marks (n : nat) : list Z :=
  map (fun k => 1000 * Z.of_nat k) (seq 1 (n / 1000)).

(** ** Sample data *)

(** An input read, as the cursor yields it: not aligned yet. *)
Definition read_1 : BamRecord := mkBamRecord "read/1" (-1) (-1) 0 0 0.

(** An alignment that spans 100 reference bases without an error. *)
Definition aln_100_0 : BamRecord := mkBamRecord "read/1" 0 100 0 0 0.

(** An alignment that spans 50 reference bases with 5 errors. *)
Definition aln_50_5 : BamRecord := mkBamRecord "read/2" 200 250 2 1 2.

(** An alignment of span 0. *)
Definition aln_0 : BamRecord := mkBamRecord "read/3" 7 7 0 0 0.

Definition sample_settings : AlignSettings :=
  mkAlignSettings 0.75%float 50 4 true.

(** A world with two files: a subread set and a minimap2 index. *)
Definition sample_world : World :=
  mkWorld (fun path => String.eqb path "in.subreads.bam"
                       || String.eqb path "ref.mmi")
          (fun path => if String.eqb path "in.subreads.bam" then SUBREAD
                       else GENERIC)
          (fun _ => [])
          (fun _ => "bam"%string)
          (fun _ => [read_1]).

(** An aligner that reports the same alignment for every read. *)
Definition sample_mm_map (read : BamRecord) : list BamRecord := [aln_100_0].

(** The state of the system on the empty input after the driver has
    submitted its batch, finalized the queue and joined the writer. *)
Definition sample_joined : system :=
  mkSystem [CreatePbi; ReturnSuccess]
           [ProduceWith [BamRecord_default]; Finalize; Join]
           [] true [Some [aln_100_0]]
           (WriteRecords Sink_init (Some [aln_100_0])) true.

(** A world in which the extension of a path is what follows its last
    dot, for the two extensions the workflow knows, and in which a subread
    set, a minimap2 index and an older output exist. *)
Definition sample_files : World :=
  mkWorld (fun path => String.eqb path "in.subreads.bam"
                       || String.eqb path "ref.mmi"
                       || String.eqb path "run/out.alignmentset.xml")
          (fun path => if String.eqb path "in.subreads.bam" then SUBREAD
                       else GENERIC)
          (fun _ => [])
          (fun path => if ends_with path ".xml" then "xml"%string
                       else if ends_with path ".bam" then "bam"%string
                       else EmptyString)
          (fun _ => [read_1]).

(** * Properties *)

(** ** The batching loop *)

Section BatcherFacts.
Context {A : Type} (dflt : A) (C : nat).
Hypothesis C_pos : (0 < C)%nat.

Local Open Scope nat_scope.

Lemma div_mod_full_chunk i n :
  S i = C -> (i + S n) / C = S (n / C) /\ (i + S n) mod C = n mod C.
Proof.
  intros Hi. replace (i + S n) with (1 * C + n) by lia. split.
  - rewrite Nat.div_add_l by lia. lia.
  - rewrite Nat.add_comm. apply Nat.Div0.mod_add.
Qed.

(** The loop invariant: the buffer is the records read since the last
    submission followed by untouched default slots. *)
Lemma batch_loop_inv input : forall filled queue,
  length filled < C ->
  exists last queue',
    Batcher.batch_loop dflt C input (length filled)
      (filled ++ replicate (C - length filled) dflt) queue
    = (S (length last), last ++ replicate (C - length last) dflt,
       queue ++ queue')
    /\ length last = (length filled + length input) mod C
    /\ length last < C
    /\ map length queue' = replicate ((length filled + length input) / C) C
    /\ concat queue' ++ last = filled ++ input.
Proof.
  induction input as [|r rest IH]; intros filled queue Hlt; simpl.
  - exists filled, []. rewrite !app_nil_r, Nat.add_0_r.
    rewrite Nat.mod_small, Nat.div_small by lia. auto.
  - assert (Hins : <[length filled := r]>
              (filled ++ replicate (C - length filled) dflt)
            = (filled ++ [r]) ++ replicate (C - S (length filled)) dflt).
    { rewrite insert_app_r_alt by lia. rewrite Nat.sub_diag.
      destruct (C - length filled) as [|k] eqn:Hk; [lia|].
      replace (C - S (length filled)) with k by lia.
      simpl. by rewrite <- app_assoc. }
    rewrite Hins. clear Hins.
    destruct (Nat.leb_spec C (S (length filled))) as [Hfull|Hroom].
    + assert (HC : S (length filled) = C) by lia.
      rewrite HC, Nat.sub_diag, app_nil_r.
      destruct (IH [] (queue ++ [filled ++ [r]])) as (last & q' & E & Hl & Hl' & Hq & Hc);
        [simpl; lia|].
      simpl in E. rewrite Nat.sub_0_r in E. unfold Batcher.fresh_buffer.
      exists last, ((filled ++ [r]) :: q'). rewrite E.
      destruct (div_mod_full_chunk (length filled) (length rest) HC) as [Hd Hm].
      rewrite Hd, Hm. simpl in Hl, Hq, Hc. repeat split; auto.
      * by rewrite <- app_assoc.
      * simpl. rewrite Hq. f_equal. rewrite length_app. simpl. lia.
      * simpl. rewrite <- !app_assoc, Hc. simpl. done.
    + destruct (IH (filled ++ [r]) queue) as (last & q' & E & Hl & Hl' & Hq & Hc).
      { rewrite length_app. simpl. lia. }
      rewrite length_app in E, Hl, Hq. simpl in E, Hl, Hq.
      rewrite Nat.add_1_r in E. rewrite E.
      exists last, q'.
      replace (length filled + S (length rest))
        with (length filled + 1 + length rest) by lia.
      repeat split; auto. rewrite Hc, <- app_assoc. done.
Qed.

(** What the code submits: [R / C] full batches and then one more batch
    that holds the [R mod C] trailing records and one default slot. *)
Lemma Runner_batches_shape input :
  exists full last,
    Batcher.Runner_batches dflt C input = full ++ [last ++ [dflt]]
    /\ map length full = replicate (length input / C) C
    /\ length last = length input mod C
    /\ concat full ++ last = input.
Proof.
  unfold Batcher.Runner_batches, Batcher.fresh_buffer.
  destruct (batch_loop_inv input [] []) as (last & q & E & Hl & Hl' & Hq & Hc);
    [simpl; lia|].
  simpl in E, Hl, Hq, Hc. rewrite Nat.sub_0_r in E. rewrite E. simpl.
  exists q, last. repeat split; auto.
  f_equal. f_equal. unfold Batcher.resize.
  rewrite length_app, length_replicate.
  replace (S (length last) - (length last + (C - length last))) with 0 by lia.
  simpl. rewrite app_nil_r.
  rewrite take_app_ge by lia.
  replace (S (length last) - length last) with 1 by lia.
  destruct (C - length last) as [|k] eqn:Hk; [lia|]. done.
Qed.

Lemma Runner_batches_lengths input :
  map length (Batcher.Runner_batches dflt C input)
  = replicate (length input / C) C ++ [S (length input mod C)].
Proof.
  destruct (Runner_batches_shape input) as (full & last & E & Hf & Hl & _).
  rewrite E, map_app, Hf. simpl. rewrite length_app, Hl. simpl.
  f_equal. f_equal. lia.
Qed.

Lemma Runner_batches_concat input :
  concat (Batcher.Runner_batches dflt C input) = input ++ [dflt].
Proof.
  destruct (Runner_batches_shape input) as (full & last & E & _ & _ & Hc).
  rewrite E, concat_app. simpl. rewrite app_nil_r, app_assoc, Hc. done.
Qed.
End BatcherFacts.

(** ** Machine arithmetic *)

Lemma wrap_wrap_add w a b : 0 < w -> wrap w (wrap w a + b) = wrap w (a + b).
Proof.
  intros Hw. unfold wrap. f_equal.
  assert (H2 : 0 < 2 ^ w) by (apply Z.pow_pos_nonneg; lia).
  replace ((a + 2 ^ (w - 1)) mod 2 ^ w - 2 ^ (w - 1) + b + 2 ^ (w - 1))
    with ((a + 2 ^ (w - 1)) mod 2 ^ w + b) by lia.
  rewrite Zplus_mod_idemp_l. f_equal. lia.
Qed.

Lemma wrap_small w x :
  0 < w -> - 2 ^ (w - 1) <= x < 2 ^ (w - 1) -> wrap w x = x.
Proof.
  intros Hw Hx. unfold wrap.
  assert (E : 2 ^ w = 2 * 2 ^ (w - 1)).
  { replace w with (Z.succ (w - 1)) at 1 by lia. apply Z.pow_succ_r. lia. }
  rewrite Z.mod_small by lia. lia.
Qed.

Lemma wrap32_small x : in_int32 x -> wrap32 x = x.
Proof. intros H. apply wrap_small; [lia | exact H]. Qed.

Lemma wrap_range w x : 0 < w -> - 2 ^ (w - 1) <= wrap w x < 2 ^ (w - 1).
Proof.
  intros Hw. unfold wrap.
  assert (E : 2 ^ w = 2 * 2 ^ (w - 1)).
  { replace w with (Z.succ (w - 1)) at 1 by lia. apply Z.pow_succ_r. lia. }
  assert (H2 : 0 < 2 ^ (w - 1)) by (apply Z.pow_pos_nonneg; lia).
  pose proof (Z.mod_pos_bound (x + 2 ^ (w - 1)) (2 ^ w)) as Hb. lia.
Qed.

(** ** The writer *)

Lemma wrap64_small x : in_int64 x -> wrap64 x = x.
Proof. intros H. apply wrap_small; [lia | exact H]. Qed.

Lemma Sink_init_wf : Sink_wf Sink_init.
Proof. unfold Sink_wf, in_int32, in_int64. simpl. lia. Qed.

Lemma write_record_wf st aln : Sink_wf (write_record st aln).
Proof.
  unfold Sink_wf, write_record, in_int32, in_int64, wrap32, wrap64. simpl.
  pose proof (wrap_range 32 (NumAlns (s st) + 1)).
  pose proof (wrap_range 64 (Bases (s st) + span aln)).
  pose proof (wrap_range 64 (alignedRecords st + 1)).
  simpl in *. lia.
Qed.

Lemma fold_write_record alns : forall st,
  Sink_wf st ->
  let st' := fold_left write_record alns st in
  out st' = out st ++ alns
  /\ NumAlns (s st') = wrap32 (NumAlns (s st) + Z.of_nat (length alns))
  /\ Bases (s st') = wrap64 (Bases (s st) + total_span alns)
  /\ Similarity (s st') = add_similarities (Similarity (s st)) alns
  /\ alignedRecords st'
     = wrap64 (alignedRecords st + Z.of_nat (length alns))
  /\ Sink_wf st'.
Proof.
  induction alns as [|aln alns IH]; intros st Hwf st'.
  - subst st'. destruct Hwf as (H1 & H2 & H3). simpl.
    rewrite !Z.add_0_r, app_nil_r, wrap32_small, !wrap64_small by assumption.
    unfold Sink_wf. auto 10.
  - subst st'. simpl fold_left.
    destruct (IH (write_record st aln) (write_record_wf st aln))
      as (Ho & Hn & Hb & Hs & Ha & Hw).
    rewrite Ho, Hn, Hb, Hs, Ha. clear IH Ho Hn Hb Hs Ha.
    split; [|split; [|split; [|split; [|split]]]]; try exact Hw; clear Hw;
      unfold write_record; simpl; unfold wrap32, wrap64;
      rewrite ?wrap_wrap_add by lia; rewrite <- ?app_assoc;
      try done; f_equal; lia.
Qed.

Lemma fold_WriteRecords_flat results : forall st,
  fold_left WriteRecords results st
  = fold_left write_record (flat_results results) st.
Proof.
  induction results as [|r results IH]; intros st; [done|].
  unfold flat_results. simpl. rewrite fold_left_app.
  rewrite IH. by destruct r.
Qed.

(** C1.  The claim: the loop submits ceil(R/C) batches, none for an empty
    input and no extra one when R is a multiple of C.  The code, evaluated:
    on the empty input it submits one batch, which holds one default
    record; on 100 records (C = 100) it submits two batches, of 100 records
    and of 1 record.  In general it submits R / C full batches and one more
    of (R mod C) + 1 records, see [Runner_batches_lengths]. *)
Theorem Runner_batches_trailing_batch :
  Batcher.Runner_batches BamRecord_default chunkSize []
  = [[BamRecord_default]]
  /\ map length
       (Batcher.Runner_batches BamRecord_default chunkSize
          (replicate 100 read_1))
     = [100%nat; 1%nat].
Proof. split; vm_compute; reflexivity. Qed.

(** C2.  The claim: the records submitted are, as a multiset, the records
    read; no default-constructed slot is submitted.  The code, evaluated on
    an input of one record: the batch submitted is that record followed by
    the default slot, so the submitted records are not a permutation of the
    input.  In general the submitted records are the input followed by one
    default record, see [Runner_batches_concat]. *)
Theorem Runner_batches_submits_default_slot :
  Batcher.Runner_batches BamRecord_default chunkSize [read_1]
  = [[read_1; BamRecord_default]]
  /\ ~ (concat (Batcher.Runner_batches BamRecord_default chunkSize [read_1])
        ≡ₚ [read_1]).
Proof.
  split; [vm_compute; reflexivity|].
  intros HP. apply Permutation_length in HP. vm_compute in HP. discriminate.
Qed.

(** C3, as stated, fails: with nothing consumed the count is 0 and the
    reported mean concordance is the NaN that [0.0 / 0] computes. *)
Lemma WriterThread_empty_reports_nan :
  rep_alignments (snd (WriterThread [])) = 0
  /\ Double.is_nan (rep_concordance (snd (WriterThread []))) = true.
Proof. split; vm_compute; reflexivity. Qed.

(** C3, amended.  When the queue is drained the writer reports the number
    of alignments, the number of bases and the mean concordance
    round(1000 * sum(similarity) / count) / 10; the division is not
    guarded, and when no record was written the reported mean is NaN. *)
Theorem WriterThread_report results :
  let alns := flat_results results in
  let rep := snd (WriterThread results) in
  rep_alignments rep = wrap32 (Z.of_nat (length alns))
  /\ rep_bases rep = wrap64 (total_span alns)
  /\ rep_concordance rep
     = (Double.round (1000 * add_similarities 0 alns
                      / Double.of_Z (rep_alignments rep)) / 10)%float
  /\ (alns = [] -> rep = mkReport 0 0 nan).
Proof.
  intros alns rep. subst rep. unfold WriterThread. simpl snd.
  rewrite fold_WriteRecords_flat. fold alns.
  destruct (fold_write_record alns Sink_init Sink_init_wf)
    as (_ & Hn & Hb & Hs & _).
  simpl in Hn, Hb, Hs.
  unfold final_report, mean_concordance. simpl. rewrite Hn, Hb, Hs.
  repeat split. intros ->. vm_compute. reflexivity.
Qed.

Lemma WriterThread_report_witness :
  flat_results [None; Some []] = []
  /\ snd (WriterThread [None; Some []]) = mkReport 0 0 nan.
Proof.
  split; [reflexivity|].
  apply (WriterThread_report [None; Some []]). reflexivity.
Defined.

(** C6.  After the writer has processed exactly two alignments, one of span
    100 without errors and one of span 50 with 5 errors (in either order,
    in one result or in two), the summary holds count 2 and bases 150 and
    the reported mean concordance is 95.0. *)
Theorem WriterThread_two_alignments results a1 a2 :
  span a1 = 100 -> nErr a1 = 0 -> span a2 = 50 -> nErr a2 = 5 ->
  flat_results results ≡ₚ [a1; a2] ->
  NumAlns (s (fst (WriterThread results))) = 2
  /\ Bases (s (fst (WriterThread results))) = 150
  /\ snd (WriterThread results) = mkReport 2 150 95%float.
Proof.
  intros Hs1 He1 Hs2 He2 HP. unfold WriterThread. simpl fst. simpl snd.
  rewrite fold_WriteRecords_flat.
  apply Permutation_sym, Permutation_length_2_inv in HP.
  destruct HP as [-> | ->]; simpl; unfold final_report, mean_concordance;
    simpl; unfold similarity; rewrite Hs1, He1, Hs2, He2;
    vm_compute; auto.
Qed.

Lemma WriterThread_two_alignments_witness :
  span aln_100_0 = 100 /\ nErr aln_100_0 = 0
  /\ span aln_50_5 = 50 /\ nErr aln_50_5 = 5
  /\ NumAlns (s (fst (WriterThread [Some [aln_100_0]; None; Some [aln_50_5]]))) = 2
  /\ Bases (s (fst (WriterThread [Some [aln_100_0]; None; Some [aln_50_5]])))
     = 150
  /\ snd (WriterThread [Some [aln_100_0]; None; Some [aln_50_5]])
     = mkReport 2 150 95%float.
Proof.
  repeat (split; [reflexivity|]).
  apply (WriterThread_two_alignments
           [Some [aln_100_0]; None; Some [aln_50_5]] aln_100_0 aln_50_5);
    reflexivity.
Defined.

(** C7.  For a result that is present, [WriteRecords] appends its records
    to the output in the order of the result, and adds to the summary one
    count, the span and the similarity of each of them. *)
Theorem WriteRecords_present st alns :
  Sink_wf st ->
  let st' := WriteRecords st (Some alns) in
  out st' = out st ++ alns
  /\ NumAlns (s st') = wrap32 (NumAlns (s st) + Z.of_nat (length alns))
  /\ Bases (s st') = wrap64 (Bases (s st) + total_span alns)
  /\ Similarity (s st') = add_similarities (Similarity (s st)) alns
  /\ alignedRecords st'
     = wrap64 (alignedRecords st + Z.of_nat (length alns)).
Proof.
  intros Hwf st'. subst st'. simpl.
  destruct (fold_write_record alns st Hwf) as (H1 & H2 & H3 & H4 & H5 & _).
  auto.
Qed.

Lemma WriteRecords_present_witness :
  let st' := WriteRecords Sink_init (Some [aln_100_0; aln_50_5]) in
  Sink_wf Sink_init
  /\ out st' = [aln_100_0; aln_50_5]
  /\ NumAlns (s st') = 2
  /\ Bases (s st') = 150
  /\ Similarity (s st')
     = add_similarities 0 [aln_100_0; aln_50_5]
  /\ alignedRecords st' = 2.
Proof.
  split; [exact Sink_init_wf|].
  exact (WriteRecords_present Sink_init [aln_100_0; aln_50_5] Sink_init_wf).
Defined.

(** C8.  An absent result and a present but empty result both leave the
    output, the summary and the counter of written records as they were,
    and so does any sequence of such results. *)
Theorem WriteRecords_absent_or_empty st :
  WriteRecords st None = st
  /\ WriteRecords st (Some []) = st
  /\ forall results : list RecordsType,
       Forall (fun r => r = None \/ r = Some []) results ->
       fold_left WriteRecords results st = st.
Proof.
  split; [reflexivity|]. split; [reflexivity|].
  intros results Hall. induction Hall as [|r results [-> | ->] _ IH];
    simpl; auto.
Qed.

Lemma WriteRecords_absent_or_empty_witness :
  Forall (fun r : RecordsType => r = None \/ r = Some []) [None; Some []]
  /\ fold_left WriteRecords [None; Some []] Sink_init = Sink_init.
Proof.
  assert (H : Forall (fun r : RecordsType => r = None \/ r = Some [])
                     [None; Some []]).
  { apply Forall_cons_2; [left; reflexivity|].
    apply Forall_cons_2; [right; reflexivity|]. apply Forall_nil_2. }
  split; [exact H|].
  exact (proj2 (proj2 (WriteRecords_absent_or_empty Sink_init)) _ H).
Defined.

(** ** The filter *)

Lemma span_exact aln :
  in_int32 (ReferenceEnd aln - ReferenceStart aln) ->
  span aln = ReferenceEnd aln - ReferenceStart aln.
Proof. apply wrap32_small. Qed.

Lemma nErr_exact aln :
  in_int32 (NumDeletedBases aln + NumInsertedBases aln + NumMismatches aln) ->
  nErr aln = NumDeletedBases aln + NumInsertedBases aln + NumMismatches aln.
Proof. apply wrap32_small. Qed.

Lemma filter_true_iff settings aln :
  filter settings aln = true <->
  ~ (span aln <= 0 \/ span aln < MinAlignmentLength settings)
  /\ (similarity aln <? MinAccuracy settings)%float = false.
Proof.
  unfold filter.
  destruct (Z.leb_spec (span aln) 0), (Z.ltb_spec (span aln) (MinAlignmentLength settings));
    simpl; try (split; [discriminate | intros [H1 _]; exfalso; apply H1; lia]).
  destruct (similarity aln <? MinAccuracy settings)%float.
  - split; [discriminate | intros [_ H1]; discriminate].
  - split; [|done]. intros _. split; [lia | done].
Qed.

Lemma filter_true_span settings aln :
  filter settings aln = true -> 1 <= span aln.
Proof. intros H. apply filter_true_iff in H. lia. Qed.

(** C4.  With span = referenceEnd - referenceStart and nErr = deletions +
    insertions + mismatches (both within 32 bits), the filter accepts a
    record exactly when neither check rejects it: not (span <= 0 or span <
    MinAlignmentLength), and not 1 - nErr/span < MinAccuracy.  The result of
    the transform is always present and holds exactly the candidate records
    the filter accepts; a rejection is not an error. *)
Theorem filter_accepts_iff settings aln :
  in_int32 (ReferenceEnd aln - ReferenceStart aln) ->
  in_int32 (NumDeletedBases aln + NumInsertedBases aln + NumMismatches aln) ->
  let sp := ReferenceEnd aln - ReferenceStart aln in
  let ne := NumDeletedBases aln + NumInsertedBases aln + NumMismatches aln in
  (filter settings aln = true <->
     ~ (sp <= 0 \/ sp < MinAlignmentLength settings)
     /\ (1 - 1 * Double.of_Z ne / Double.of_Z sp
          <? MinAccuracy settings)%float = false)
  /\ forall mm_map recs,
       exists alns,
         Align mm_map (filter settings) recs = Some alns
         /\ forall a, In a alns <->
                      In a (concat (map mm_map recs))
                      /\ filter settings a = true.
Proof.
  intros Hsp Hne sp ne. split.
  - rewrite filter_true_iff. unfold similarity.
    rewrite (span_exact aln Hsp), (nErr_exact aln Hne). reflexivity.
  - intros mm_map recs. eexists. split; [reflexivity|].
    intros a. apply filter_In.
Qed.

Lemma filter_accepts_iff_witness :
  in_int32 (ReferenceEnd aln_100_0 - ReferenceStart aln_100_0)
  /\ in_int32 (NumDeletedBases aln_100_0 + NumInsertedBases aln_100_0
               + NumMismatches aln_100_0)
  /\ filter sample_settings aln_100_0 = true
  /\ filter sample_settings aln_0 = false.
Proof.
  assert (H1 : in_int32 (ReferenceEnd aln_100_0 - ReferenceStart aln_100_0))
    by (unfold in_int32; simpl; lia).
  assert (H2 : in_int32 (NumDeletedBases aln_100_0 + NumInsertedBases aln_100_0
                         + NumMismatches aln_100_0))
    by (unfold in_int32; simpl; lia).
  split; [exact H1|]. split; [exact H2|]. split; [|reflexivity].
  apply (filter_accepts_iff sample_settings aln_100_0 H1 H2).
  split; [simpl; lia | vm_compute; reflexivity].
Defined.

(** ** The positional arguments *)

(** C9.  [CheckPositionalArgs] ends the process with [EXIT_FAILURE] when
    there are fewer than two arguments, when the input or the reference
    file does not exist, when the input is neither a SUBREAD nor a
    CONSENSUS_READ dataset, or when a reference that is not an .mmi file
    is not a REFERENCE dataset with exactly one FASTA file; [Runner] then
    ends the same way without making any call of the pipeline.  Given
    exactly two arguments that are not refused, it returns the input, the
    reference and "-" as the output path. *)
Theorem CheckPositionalArgs_spec w args :
  (refused w args ->
     CheckPositionalArgs w args = Exits EXIT_FAILURE
     /\ forall settings, Runner w settings args = Exits EXIT_FAILURE)
  /\ (forall inputFile referenceFiles,
        args = [inputFile; referenceFiles] ->
        ~ refused w args ->
        exists reference,
          CheckPositionalArgs w args
          = Returns (inputFile, reference, "-"%string)).
Proof.
  split.
  - intros Href.
    assert (E : CheckPositionalArgs w args = Exits EXIT_FAILURE).
    { destruct Href as [Hlen | (i & r & rest & -> & Hbad)].
      - destruct args as [|i [|r rest]]; simpl in Hlen; try lia; reflexivity.
      - simpl. destruct (FileExists w i) eqn:Ei; simpl; [|reflexivity].
        destruct (DataSet_Type w i) eqn:Ti; try reflexivity;
          (destruct (FileExists w r) eqn:Er; simpl; [|reflexivity];
           destruct Hbad as [Hb | [Hb | [[Hb1 Hb2] | [Hmmi Hb]]]];
           try congruence;
           rewrite Hmmi;
           destruct (DataSet_Type w r) eqn:Tr; try reflexivity;
           destruct Hb as [Hb | Hb]; try congruence;
           destruct (DataSet_FastaFiles w r) as [|f [|g fs]]; try reflexivity;
           simpl in Hb; congruence). }
    split; [exact E|]. intros settings. unfold Runner. rewrite E. reflexivity.
  - intros i r -> Hok. simpl.
    destruct (FileExists w i) eqn:Ei; simpl.
    2:{ exfalso. apply Hok. right. exists i, r, []. auto. }
    destruct (FileExists w r) eqn:Er.
    2:{ exfalso. apply Hok. right. exists i, r, []. auto. }
    assert (Hty : DataSet_Type w i = SUBREAD \/ DataSet_Type w i = CONSENSUS_READ).
    { destruct (DataSet_Type w i) eqn:Ti; auto; exfalso; apply Hok; right;
        exists i, r, []; (split; [reflexivity|]);
        right; right; left; rewrite Ti; split; discriminate. }
    assert (Hrefok : ends_with r ".mmi" = true
                     \/ (ends_with r ".mmi" = false
                         /\ DataSet_Type w r = REFERENCE
                         /\ exists f, DataSet_FastaFiles w r = [f])).
    { destruct (ends_with r ".mmi") eqn:Em; [auto|]. right. split; [done|].
      destruct (DataSet_Type w r) eqn:Tr;
        try (exfalso; apply Hok; right; exists i, r, [];
             split; [reflexivity|]; right; right; right; split; [exact Em|];
             left; rewrite Tr; discriminate).
      split; [done|].
      destruct (DataSet_FastaFiles w r) as [|f [|g fs]] eqn:Ef; eauto;
        exfalso; apply Hok; right; exists i, r, [];
        (split; [reflexivity|]); right; right; right; (split; [exact Em|]);
        right; rewrite Ef; simpl; lia. }
    destruct Hrefok as [Em | (Em & Tr & f & Ef)].
    + exists r. destruct Hty as [-> | ->]; simpl; rewrite Em; reflexivity.
    + exists f. destruct Hty as [-> | ->]; simpl; rewrite Em, Tr, Ef; reflexivity.
Qed.

(** ** The driver *)

Section DriverFacts.
Variable settings : AlignSettings.
Variable mm_map : BamRecord -> list BamRecord.
Variable outputIsXML : bool.
Variable input : list BamRecord.

Local Open Scope nat_scope.

Abbreviation calls := (Runner_calls settings outputIsXML input).
Abbreviation bs := (batches input).

Lemma Runner_calls_shape :
  exists post,
    calls = map ProduceWith bs ++ [Finalize; Join] ++ post
    /\ Forall post_processing post.
Proof.
  unfold Runner_calls. eexists. split; [reflexivity|].
  destruct (Pbi settings), outputIsXML; simpl;
    repeat (constructor; [unfold post_processing; auto|]);
    constructor.
Qed.

(** Where each kind of call sits in the driver's program. *)
Lemma Runner_calls_lookup k c :
  calls !! k = Some c ->
  match c with
  | ProduceWith b => bs !! k = Some b
  | Finalize => k = length bs
  | Join => k = S (length bs)
  | _ => length bs + 2 <= k
  end.
Proof.
  destruct Runner_calls_shape as (post & -> & Hpost).
  intros Hk. apply lookup_app_Some in Hk.
  destruct Hk as [Hk | [Hlen Hk]].
  - rewrite list_lookup_fmap in Hk.
    destruct (bs !! k) as [b|] eqn:Eb; simpl in Hk; [|discriminate].
    injection Hk as <-. done.
  - rewrite length_map in Hlen, Hk.
    destruct (k - length bs) as [|[|j]] eqn:Ej; simpl in Hk.
    + injection Hk as <-. lia.
    + injection Hk as <-. lia.
    + assert (Hc : post_processing c).
      { eapply Forall_forall in Hpost; [exact Hpost|].
        eapply list_elem_of_lookup_2. exact Hk. }
      destruct Hc as [-> | [-> | ->]]; lia.
Qed.

Lemma pending_head (l : list call) k c rest :
  drop k l = c :: rest ->
  l !! k = Some c /\ rest = drop (S k) l /\ take (S k) l = take k l ++ [c].
Proof.
  intros Hd.
  assert (Hk : l !! k = Some c).
  { rewrite <- (Nat.add_0_r k), <- lookup_drop, Hd. done. }
  split; [done|]. split.
  - erewrite drop_S in Hd by exact Hk. congruence.
  - by apply take_S_r.
Qed.

Lemma system_inv_init :
  system_inv settings mm_map outputIsXML input
    (system_init settings outputIsXML input).
Proof.
  exists 0. simpl. rewrite drop_0. repeat split; try done; try lia.
Qed.

Lemma system_inv_step st st' :
  system_inv settings mm_map outputIsXML input st ->
  step settings mm_map st st' ->
  system_inv settings mm_map outputIsXML input st'.
Proof.
  intros (k & Hdone & Hpend & Hfin & Hperm & Hsink & Hexit & Hjoin) Hstep.
  inversion Hstep as [st0 b rest Hp Hcap | st0 rest Hp | st0 rest Hp Hw
                     | st0 c rest Hp Hc | st0 before r after Hw Hq
                     | st0 Hw Hf Hq]; subst st0 st'; simpl.
  - (* ProduceWith *)
    rewrite Hpend in Hp. apply pending_head in Hp as (Hk & -> & Htake).
    apply Runner_calls_lookup in Hk.
    assert (Hlt : k < length bs) by (eapply lookup_lt_Some; exact Hk).
    assert (Hnf : finalized st = false).
    { destruct (finalized st); [|done]. assert (length bs < k) by tauto. lia. }
    exists (S k). simpl. rewrite Hdone, Htake.
    split; [done|]. split; [done|]. split; [rewrite Hnf; split; [done|lia]|].
    split.
    { erewrite take_S_r by exact Hk. rewrite map_app. simpl.
      rewrite app_assoc. by apply Permutation_app_tail. }
    split; [done|]. split; [|lia].
    intros Hw. apply Hexit in Hw as [Hw _]. congruence.
  - (* Finalize *)
    rewrite Hpend in Hp. apply pending_head in Hp as (Hk & -> & Htake).
    apply Runner_calls_lookup in Hk. subst k.
    exists (S (length bs)). simpl. rewrite Hdone, Htake.
    split; [done|]. split; [done|]. split; [split; [lia|done]|].
    split.
    { rewrite take_ge by lia. rewrite firstn_all in Hperm. done. }
    split; [done|]. split; [|lia].
    intros Hw. apply Hexit in Hw as [Hw _]. apply Hfin in Hw. lia.
  - (* Join *)
    rewrite Hpend in Hp. apply pending_head in Hp as (Hk & -> & Htake).
    apply Runner_calls_lookup in Hk. subst k.
    exists (S (S (length bs))). simpl. rewrite Hdone, Htake.
    split; [done|]. split; [done|].
    split; [rewrite Hfin; lia|].
    split; [rewrite take_ge by lia; rewrite take_ge in Hperm by lia; done|].
    split; [done|]. split; [done|]. done.
  - (* the calls after the pipeline scope *)
    rewrite Hpend in Hp. apply pending_head in Hp as (Hk & -> & Htake).
    apply Runner_calls_lookup in Hk.
    assert (Hge : length bs + 2 <= k) by (destruct Hc as [-> | [-> | ->]]; done).
    exists (S k). simpl. rewrite Hdone, Htake.
    split; [done|]. split; [done|].
    split; [rewrite Hfin; lia|].
    split; [rewrite take_ge by lia; rewrite take_ge in Hperm by lia; done|].
    split; [done|]. split; [done|]. intros _. apply Hjoin. lia.
  - (* the writer consumes a result *)
    exists k. simpl.
    split; [done|]. split; [done|]. split; [done|].
    split.
    { rewrite <- Hperm, Hq. rewrite <- !app_assoc.
      apply Permutation_app_head. simpl.
      apply Permutation_middle. }
    split; [rewrite fold_left_app, <- Hsink; done|].
    split; [congruence|]. intros Hk. apply Hjoin in Hk. congruence.
  - (* the writer exits *)
    exists k. simpl. repeat split; try done; tauto.
Qed.

Lemma reachable_inv st :
  reachable settings mm_map outputIsXML input st ->
  system_inv settings mm_map outputIsXML input st.
Proof.
  induction 1 as [|st st' _ IH Hstep];
    [apply system_inv_init | eapply system_inv_step; eauto].
Qed.
End DriverFacts.

(** ** Checked divisions *)

Lemma similarity_checked_nonzero aln :
  span aln <> 0 -> similarity_checked aln = Some (similarity aln).
Proof.
  intros Hsp. unfold similarity_checked, div_by, similarity.
  destruct (Z.eqb_spec (span aln) 0); [contradiction | reflexivity].
Qed.

Lemma filter_checked_total settings aln :
  filter_checked settings aln = Some (filter settings aln).
Proof.
  unfold filter_checked, filter.
  destruct (Z.leb_spec (span aln) 0); simpl; [reflexivity|].
  destruct (span aln <? MinAlignmentLength settings); [reflexivity|].
  rewrite similarity_checked_nonzero by lia. reflexivity.
Qed.

Lemma write_record_checked_nonzero st aln :
  span aln <> 0 -> write_record_checked st aln = Some (write_record st aln).
Proof.
  intros Hsp. unfold write_record_checked.
  rewrite similarity_checked_nonzero by exact Hsp. reflexivity.
Qed.

Lemma WriteRecords_checked_nonzero alns : forall st,
  Forall (fun aln => span aln <> 0) alns ->
  WriteRecords_checked st (Some alns) = Some (WriteRecords st (Some alns)).
Proof.
  induction alns as [|aln alns IH]; intros st Hall; [reflexivity|].
  inversion Hall as [|? ? Hsp Hrest]; subst.
  specialize (IH (write_record st aln) Hrest). simpl in *.
  rewrite write_record_checked_nonzero by exact Hsp. exact IH.
Qed.

Lemma Align_accepted settings mm_map batch :
  exists alns,
    Align mm_map (filter settings) batch = Some alns
    /\ Forall (fun aln => filter settings aln = true) alns.
Proof.
  eexists. split; [reflexivity|].
  apply Forall_forall. intros a Ha.
  apply list_elem_of_In, filter_In in Ha. tauto.
Qed.

Lemma WriterThread_checked_accepted settings results : forall st,
  Forall (fun r : RecordsType =>
            forall alns, r = Some alns ->
                         Forall (fun aln => filter settings aln = true) alns)
         results ->
  foldl (fun acc r => st ← acc; WriteRecords_checked st r) (Some st) results
  = Some (fold_left WriteRecords results st).
Proof.
  induction results as [|r results IH]; intros st Hall; [reflexivity|].
  inversion Hall as [|? ? Hr Hrest]; subst. simpl.
  destruct r as [alns|]; simpl.
  - specialize (Hr alns eq_refl).
    pose proof (WriteRecords_checked_nonzero alns st) as E. simpl in E.
    rewrite E; [apply IH; exact Hrest|].
    eapply Forall_impl; [exact Hr|]. simpl. intros a Ha.
    apply filter_true_span in Ha. lia.
  - apply IH. exact Hrest.
Qed.

(** ** The shutdown order *)

(** C5.  The driver's program is the submissions, then one [Finalize],
    then the [Join], then the post-processing calls, and the driver
    executes it in that order: whenever [Finalize] has been called, the
    calls before it are exactly the submissions of all the batches.  In
    every reachable state in which the [Join] or a post-processing call is
    completed, the writer thread has exited, the queue is empty, the
    results consumed are those of all the submitted batches, and the output
    holds their records. *)
Theorem shutdown_protocol settings mm_map outputIsXML input st :
  reachable settings mm_map outputIsXML input st ->
  let calls := Runner_calls settings outputIsXML input in
  let bs := batches input in
  (exists post,
     calls = map ProduceWith bs ++ [Finalize; Join] ++ post
     /\ Forall post_processing post)
  /\ done st ++ pending st = calls
  /\ (forall before after,
        done st = before ++ Finalize :: after -> before = map ProduceWith bs)
  /\ (forall c, c ∈ done st -> c = Join \/ post_processing c ->
        writer_exited st = true
        /\ queued st = []
        /\ consumed st ≡ₚ map (Align mm_map (filter settings)) bs
        /\ sink st = fold_left WriteRecords (consumed st) Sink_init
        /\ out (sink st) = flat_results (consumed st)).
Proof.
  intros Hreach calls bs. subst calls bs.
  apply reachable_inv in Hreach.
  destruct Hreach as (k & Hdone & Hpend & Hfin & Hperm & Hsink & Hexit & Hjoin).
  split; [apply Runner_calls_shape|].
  split; [rewrite Hdone, Hpend; apply take_drop|].
  split.
  { intros before after E.
    assert (Hcalls : Runner_calls settings outputIsXML input
                     = before ++ Finalize :: (after ++ pending st)).
    { rewrite <- (take_drop k (Runner_calls settings outputIsXML input)) at 1.
      rewrite <- Hdone, <- Hpend, E, <- app_assoc. reflexivity. }
    assert (Hlen : length before = length (batches input)).
    { apply (Runner_calls_lookup settings outputIsXML input _ Finalize).
      rewrite Hcalls. apply list_lookup_middle. reflexivity. }
    destruct (Runner_calls_shape settings outputIsXML input) as (post & Hs & _).
    rewrite Hs in Hcalls.
    apply app_inj_1 in Hcalls; [symmetry; tauto|].
    rewrite length_map. lia. }
  intros c Hin Hc.
  assert (Hk : (length (batches input) + 1 < k)%nat).
  { rewrite Hdone in Hin. apply list_elem_of_lookup in Hin as [i Hi].
    apply lookup_take_Some in Hi as [Hi Hik].
    apply Runner_calls_lookup in Hi.
    destruct Hc as [-> | [-> | [-> | ->]]]; lia. }
  pose proof (Hjoin Hk) as Hw. destruct (Hexit Hw) as [_ Hq].
  split; [done|]. split; [done|].
  rewrite Hq, app_nil_r in Hperm. rewrite take_ge in Hperm by lia.
  split; [done|]. split; [done|].
  rewrite Hsink, fold_WriteRecords_flat.
  destruct (fold_write_record (flat_results (consumed st)) Sink_init Sink_init_wf)
    as (Ho & _).
  exact Ho.
Qed.

Lemma sample_joined_reachable :
  reachable sample_settings sample_mm_map false [] sample_joined.
Proof.
  pose proof (reachable_init sample_settings sample_mm_map false []) as R.
  eapply reachable_step in R;
    [|eapply step_produce; [vm_compute; reflexivity | reflexivity]].
  eapply reachable_step in R;
    [|eapply step_finalize; vm_compute; reflexivity].
  eapply reachable_step in R;
    [|eapply (step_consume _ _ _ []); [reflexivity | vm_compute; reflexivity]].
  eapply reachable_step in R;
    [|eapply step_writer_exit; reflexivity].
  eapply reachable_step in R;
    [|eapply step_join; [vm_compute; reflexivity | reflexivity]].
  exact R.
Qed.

Lemma shutdown_protocol_witness :
  reachable sample_settings sample_mm_map false [] sample_joined
  /\ Join ∈ done sample_joined
  /\ writer_exited sample_joined = true
  /\ queued sample_joined = []
  /\ out (sink sample_joined) = [aln_100_0].
Proof.
  split; [exact sample_joined_reachable|].
  assert (Hin : Join ∈ done sample_joined).
  { simpl. apply list_elem_of_In. simpl. auto. }
  split; [exact Hin|].
  destruct (shutdown_protocol sample_settings sample_mm_map false []
              sample_joined sample_joined_reachable)
    as (_ & _ & _ & H).
  destruct (H Join Hin (or_introl eq_refl)) as (Hw & Hq & _ & _ & Ho).
  split; [exact Hw|]. split; [exact Hq|]. exact Ho.
Defined.

(** C10.  The filter never divides by a zero span: with checked divisions
    it always has a result, the one of the plain filter.  A record the
    filter accepts has span >= 1, so its similarity is computed with a
    non-zero divisor; [WriteRecords] on a result of accepted records
    performs no division by zero and computes what the plain code
    computes; and in every reachable state of the pipeline this holds of
    all the writer has consumed. *)
Theorem accepted_span_nonzero settings :
  (forall aln, filter_checked settings aln = Some (filter settings aln))
  /\ (forall aln, filter settings aln = true ->
        1 <= span aln /\ similarity_checked aln = Some (similarity aln))
  /\ (forall st alns,
        Forall (fun aln => filter settings aln = true) alns ->
        WriteRecords_checked st (Some alns)
        = Some (WriteRecords st (Some alns)))
  /\ (forall mm_map outputIsXML input st,
        reachable settings mm_map outputIsXML input st ->
        WriterThread_checked (consumed st) = Some (sink st)).
Proof.
  split; [apply filter_checked_total|].
  split.
  { intros aln Ha. apply filter_true_span in Ha.
    split; [exact Ha | apply similarity_checked_nonzero; lia]. }
  split.
  { intros st alns Hall. apply WriteRecords_checked_nonzero.
    eapply Forall_impl; [exact Hall|]. simpl. intros a Ha.
    apply filter_true_span in Ha. lia. }
  intros mm_map outputIsXML input st Hreach.
  apply reachable_inv in Hreach.
  destruct Hreach as (k & _ & _ & _ & Hperm & Hsink & _).
  unfold WriterThread_checked. rewrite Hsink.
  apply (WriterThread_checked_accepted settings).
  apply Forall_forall. intros r Hr alns ->.
  assert (Hin : Some alns ∈ map (Align mm_map (filter settings))
                               (take k (batches input))).
  { rewrite <- Hperm. apply elem_of_app. auto. }
  apply list_elem_of_In, in_map_iff in Hin as (b & Hb & _).
  destruct (Align_accepted settings mm_map b) as (alns' & E & Hall).
  congruence.
Qed.

Lemma accepted_span_nonzero_witness :
  filter sample_settings aln_50_5 = true
  /\ 1 <= span aln_50_5
  /\ similarity_checked aln_50_5 = Some (similarity aln_50_5)
  /\ filter_checked sample_settings aln_0 = Some false
  /\ similarity_checked aln_0 = None
  /\ Double.is_nan (similarity aln_50_5) = false
  /\ Double.is_inf (similarity aln_50_5) = false
  /\ WriterThread_checked (consumed sample_joined)
     = Some (sink sample_joined).
Proof.
  assert (Hf : filter sample_settings aln_50_5 = true) by reflexivity.
  destruct (accepted_span_nonzero sample_settings) as (_ & H2 & _ & H4).
  destruct (H2 aln_50_5 Hf) as [Hsp Hsim].
  split; [exact Hf|]. split; [exact Hsp|]. split; [exact Hsim|].
  do 4 (split; [reflexivity|]).
  exact (H4 sample_mm_map false [] sample_joined sample_joined_reachable).
Defined.

Lemma CheckPositionalArgs_spec_witness :
  refused sample_world ["in.subreads.bam"%string]
  /\ CheckPositionalArgs sample_world ["in.subreads.bam"%string]
     = Exits EXIT_FAILURE
  /\ ~ refused sample_world ["in.subreads.bam"%string; "ref.mmi"%string]
  /\ exists reference,
       CheckPositionalArgs sample_world
         ["in.subreads.bam"%string; "ref.mmi"%string]
       = Returns ("in.subreads.bam"%string, reference, "-"%string).
Proof.
  assert (H1 : refused sample_world ["in.subreads.bam"%string]).
  { left. simpl. lia. }
  assert (H2 : ~ refused sample_world
                   ["in.subreads.bam"%string; "ref.mmi"%string]).
  { intros [Hlen | (i & r & rest & E & Hbad)]; [simpl in Hlen; lia|].
    injection E as <- <- <-.
    destruct Hbad as [Hb | [Hb | [[Hb _] | [Hb _]]]];
      try discriminate Hb. apply Hb. reflexivity. }
  destruct (CheckPositionalArgs_spec sample_world ["in.subreads.bam"%string])
    as [Hrefuse _].
  destruct (CheckPositionalArgs_spec sample_world
              ["in.subreads.bam"%string; "ref.mmi"%string])
    as [_ Hreturn].
  split; [exact H1|]. split; [exact (proj1 (Hrefuse H1))|].
  split; [exact H2|]. exact (Hreturn _ _ eq_refl H2).
Defined.

(** ** More on the positional arguments *)

Lemma CheckPositionalArgs_returns w args inputFile reference output :
  CheckPositionalArgs w args = Returns (inputFile, reference, output) ->
  exists referenceFiles rest,
    args = inputFile :: referenceFiles :: rest
    /\ FileExists w inputFile = true
    /\ (DataSet_Type w inputFile = SUBREAD
        \/ DataSet_Type w inputFile = CONSENSUS_READ)
    /\ FileExists w referenceFiles = true
    /\ (ends_with referenceFiles ".mmi" = true /\ reference = referenceFiles
        \/ ends_with referenceFiles ".mmi" = false
           /\ DataSet_Type w referenceFiles = REFERENCE
           /\ DataSet_FastaFiles w referenceFiles = [reference])
    /\ output = match rest with [third] => third | _ => "-"%string end.
Proof.
  destruct args as [|i [|r rest]]; try discriminate. simpl.
  destruct (FileExists w i) eqn:Ei; simpl; [|discriminate].
  assert (Hfinish :
    (if negb (FileExists w r) then Exits EXIT_FAILURE
     else if ends_with r ".mmi"
          then Returns (i, r, match rest with [third] => third | _ => "-"%string end)
          else match DataSet_Type w r with
               | REFERENCE =>
                   match DataSet_FastaFiles w r with
                   | [fasta] =>
                       Returns (i, fasta,
                                match rest with [third] => third | _ => "-"%string end)
                   | _ => Exits EXIT_FAILURE
                   end
               | _ => Exits EXIT_FAILURE
               end)
    = Returns (inputFile, reference, output) ->
    DataSet_Type w i = SUBREAD \/ DataSet_Type w i = CONSENSUS_READ ->
    exists referenceFiles rest0,
      i :: r :: rest = inputFile :: referenceFiles :: rest0
      /\ FileExists w inputFile = true
      /\ (DataSet_Type w inputFile = SUBREAD
          \/ DataSet_Type w inputFile = CONSENSUS_READ)
      /\ FileExists w referenceFiles = true
      /\ (ends_with referenceFiles ".mmi" = true /\ reference = referenceFiles
          \/ ends_with referenceFiles ".mmi" = false
             /\ DataSet_Type w referenceFiles = REFERENCE
             /\ DataSet_FastaFiles w referenceFiles = [reference])
      /\ output = match rest0 with [third] => third | _ => "-"%string end).
  { destruct (FileExists w r) eqn:Er; simpl; [|discriminate].
    destruct (ends_with r ".mmi") eqn:Em.
    - intros [= <- <- <-] Hty. exists r, rest. auto 10.
    - destruct (DataSet_Type w r) eqn:Tr; try discriminate.
      destruct (DataSet_FastaFiles w r) as [|f [|g fs]] eqn:Ef;
        try discriminate.
      intros [= <- <- <-] Hty. exists r, rest. auto 10. }
  destruct (DataSet_Type w i) eqn:Ti; try discriminate;
    intros E; apply Hfinish; auto.
Qed.

Lemma CheckPositionalArgs_exit_status w args status :
  CheckPositionalArgs w args = Exits status -> status = EXIT_FAILURE.
Proof.
  destruct args as [|i [|r rest]]; simpl; try (intros [= <-]; reflexivity).
  destruct (FileExists w i); simpl; [|intros [= <-]; reflexivity].
  destruct (DataSet_Type w i); try (intros [= <-]; reflexivity);
    (destruct (FileExists w r); simpl; [|intros [= <-]; reflexivity];
     destruct (ends_with r ".mmi"); [discriminate|];
     destruct (DataSet_Type w r); try (intros [= <-]; reflexivity);
     destruct (DataSet_FastaFiles w r) as [|f [|g fs]];
     try (intros [= <-]; reflexivity); discriminate).
Qed.

Lemma CheckPositionalArgs_exits_refused w args status :
  CheckPositionalArgs w args = Exits status -> refused w args.
Proof.
  destruct args as [|i [|r rest]]; simpl;
    try (intros _; left; simpl; lia).
  intros E. right. exists i, r, rest. split; [reflexivity|].
  destruct (FileExists w i) eqn:Ei; simpl in E; [|auto].
  destruct (FileExists w r) eqn:Er; [|auto].
  destruct (DataSet_Type w i) eqn:Ti;
    try (right; right; left; split; discriminate);
    (simpl in E; right; right; right;
     destruct (ends_with r ".mmi") eqn:Em; [discriminate|];
     split; [reflexivity|];
     destruct (DataSet_Type w r) eqn:Tr; try (left; discriminate);
     right;
     destruct (DataSet_FastaFiles w r) as [|f [|g fs]]; simpl;
     try lia; discriminate).
Qed.

Lemma returns_not_refused w args result :
  CheckPositionalArgs w args = Returns result -> ~ refused w args.
Proof.
  destruct result as [[i r] o]. intros E.
  apply CheckPositionalArgs_returns in E
    as (ref & rest & -> & Ei & Hty & Er & Href & _).
  intros [Hlen | (i' & ref' & rest' & [= <- <- <-] & Hbad)];
    [simpl in Hlen; lia|].
  destruct Hbad as [Hb | [Hb | [[Hb1 Hb2] | [Hm Hb]]]]; try congruence.
  - destruct Hty; contradiction.
  - destruct Href as [[Hm' _] | (_ & Tr & Ef)]; [congruence|].
    destruct Hb as [Hb | Hb]; [contradiction|]. rewrite Ef in Hb.
    simpl in Hb. lia.
Qed.

(** X7.  [CheckPositionalArgs] returns exactly when the arguments are not
    refused, whatever their number; every exit has status [EXIT_FAILURE];
    and what it returns starts with the first argument, which names an
    existing file of type SUBREAD or CONSENSUS_READ. *)
Theorem CheckPositionalArgs_returns_iff w args :
  ((exists result, CheckPositionalArgs w args = Returns result)
   <-> ~ refused w args)
  /\ (forall status,
        CheckPositionalArgs w args = Exits status ->
        status = EXIT_FAILURE /\ refused w args)
  /\ (forall inputFile reference output,
        CheckPositionalArgs w args = Returns (inputFile, reference, output) ->
        args !! 0%nat = Some inputFile
        /\ FileExists w inputFile = true
        /\ (DataSet_Type w inputFile = SUBREAD
            \/ DataSet_Type w inputFile = CONSENSUS_READ)).
Proof.
  split; [split|split].
  - intros [result E]. eapply returns_not_refused. exact E.
  - intros Hok. destruct (CheckPositionalArgs w args) as [result|status] eqn:E.
    + eauto.
    + exfalso. apply Hok. eapply CheckPositionalArgs_exits_refused. exact E.
  - intros status E. split.
    + eapply CheckPositionalArgs_exit_status. exact E.
    + eapply CheckPositionalArgs_exits_refused. exact E.
  - intros i r o E.
    apply CheckPositionalArgs_returns in E as (ref & rest & -> & Ei & Hty & _).
    auto.
Qed.

(** X8.  The output path returned is the third argument when there are
    exactly three arguments and "-" otherwise: with four or more arguments
    the third one is ignored. *)
Theorem CheckPositionalArgs_output w args inputFile reference output :
  CheckPositionalArgs w args = Returns (inputFile, reference, output) ->
  (length args = 3%nat -> args !! 2%nat = Some output)
  /\ (length args <> 3%nat -> output = "-"%string).
Proof.
  intros E.
  apply CheckPositionalArgs_returns in E as (ref & rest & -> & _ & _ & _ & _ & ->).
  destruct rest as [|third [|fourth rest]]; simpl; split;
    try reflexivity; try lia; intros; try reflexivity; lia.
Qed.

Lemma CheckPositionalArgs_output_witness :
  CheckPositionalArgs sample_world
    ["in.subreads.bam"; "ref.mmi"; "out.bam"; "more"]%string
  = Returns ("in.subreads.bam", "ref.mmi", "-")%string
  /\ length ["in.subreads.bam"; "ref.mmi"; "out.bam"; "more"]%string <> 3%nat
  /\ CheckPositionalArgs sample_world
       ["in.subreads.bam"; "ref.mmi"; "out.bam"]%string
     = Returns ("in.subreads.bam", "ref.mmi", "out.bam")%string.
Proof.
  split; [reflexivity|]. split; [simpl; lia|].
  pose proof (CheckPositionalArgs_output sample_world
                ["in.subreads.bam"; "ref.mmi"; "out.bam"; "more"]%string
                _ _ _ eq_refl) as [_ H].
  reflexivity.
Defined.

(** ** Strings *)

Section StringFacts.
Local Open Scope string_scope.

Lemma append_empty_r (str : string) : str ++ "" = str.
Proof. induction str as [|c str IH]; simpl; [reflexivity | by rewrite IH]. Qed.

Lemma append_associative (a b c : string) : (a ++ b) ++ c = a ++ (b ++ c).
Proof. induction a as [|x a IH]; simpl; [reflexivity | by rewrite IH]. Qed.

Lemma length_append (a b : string) :
  String.length (a ++ b) = (String.length a + String.length b)%nat.
Proof. induction a as [|x a IH]; simpl; [reflexivity | by rewrite IH]. Qed.

Lemma substring_all (str : string) :
  substring 0 (String.length str) str = str.
Proof. induction str as [|c str IH]; simpl; [reflexivity | by rewrite IH]. Qed.

Lemma substring_skip (a b : string) n :
  substring (String.length a) n (a ++ b) = substring 0 n b.
Proof. induction a as [|x a IH]; simpl; [reflexivity | exact IH]. Qed.

Lemma ends_with_append (str suffix : string) :
  ends_with (str ++ suffix) suffix = true.
Proof.
  unfold ends_with. rewrite length_append.
  destruct (Nat.leb_spec (String.length suffix)
              (String.length str + String.length suffix)); [|lia].
  replace (String.length str + String.length suffix - String.length suffix)%nat
    with (String.length str) by lia.
  rewrite substring_skip, substring_all. apply String.eqb_refl.
Qed.

(** X9.  A reference argument that ends in ".mmi" is returned as it is,
    without being opened as a dataset; any other reference must be a
    REFERENCE dataset with exactly one FASTA file, and that file is what is
    returned. *)
Theorem CheckPositionalArgs_reference w :
  (forall inputFile path rest,
     FileExists w inputFile = true ->
     DataSet_Type w inputFile = SUBREAD
     \/ DataSet_Type w inputFile = CONSENSUS_READ ->
     FileExists w (path ++ ".mmi") = true ->
     exists output,
       CheckPositionalArgs w (inputFile :: (path ++ ".mmi") :: rest)
       = Returns (inputFile, path ++ ".mmi", output))
  /\ (forall args inputFile reference output referenceFiles,
        CheckPositionalArgs w args = Returns (inputFile, reference, output) ->
        args !! 1%nat = Some referenceFiles ->
        ends_with referenceFiles ".mmi" = false ->
        DataSet_Type w referenceFiles = REFERENCE
        /\ DataSet_FastaFiles w referenceFiles = [reference]).
Proof.
  split.
  - intros i path rest Ei Hty Er. simpl. rewrite Ei, Er. simpl.
    rewrite ends_with_append. destruct Hty as [-> | ->]; eauto.
  - intros args i r o ref E Hlook Hm.
    apply CheckPositionalArgs_returns in E
      as (ref' & rest & -> & _ & _ & _ & Href & _).
    simpl in Hlook. injection Hlook as ->.
    destruct Href as [[Hm' _] | (_ & Tr & Ef)]; [congruence | auto].
Qed.

Lemma CheckPositionalArgs_reference_witness :
  FileExists sample_world "in.subreads.bam" = true
  /\ FileExists sample_world ("ref" ++ ".mmi") = true
  /\ exists output,
       CheckPositionalArgs sample_world ["in.subreads.bam"; "ref" ++ ".mmi"]
       = Returns ("in.subreads.bam", "ref" ++ ".mmi", output).
Proof.
  split; [reflexivity|]. split; [reflexivity|].
  apply (proj1 (CheckPositionalArgs_reference sample_world)
           "in.subreads.bam" "ref" []); [reflexivity | left | ]; reflexivity.
Defined.

Lemma iequal_refl c : iequal c c = true.
Proof. apply Ascii.eqb_refl. Qed.

Lemma istrip_refl (search : string) : istrip search search = Some "".
Proof.
  induction search as [|c search IH]; simpl; [reflexivity|].
  by rewrite iequal_refl.
Qed.

Lemma istrip_length (search : string) : forall str rest,
  istrip search str = Some rest ->
  String.length str = (String.length search + String.length rest)%nat.
Proof.
  induction search as [|a search IH]; intros str rest; simpl.
  - intros [= ->]. reflexivity.
  - destruct str as [|b str]; [discriminate|].
    destruct (iequal a b); [|discriminate].
    intros E. apply IH in E. simpl. lia.
Qed.

Lemma istrip_append (search : string) : forall found rest,
  istrip search found = Some "" ->
  istrip search (found ++ rest) = Some rest.
Proof.
  induction search as [|a search IH]; intros found rest; simpl.
  - intros [= ->]. reflexivity.
  - destruct found as [|b found]; [discriminate|]. simpl.
    destruct (iequal a b); [apply IH | discriminate].
Qed.

(** An input shorter than the search string has no occurrence of it. *)
Lemma ireplace_last_opt_short (input : string) : forall search format,
  (String.length input < String.length search)%nat ->
  ireplace_last_opt input search format = None.
Proof.
  induction input as [|c input IH]; intros search format Hlen; simpl.
  - destruct search; [simpl in Hlen; lia | reflexivity].
  - rewrite IH by (simpl in Hlen; lia).
    destruct (istrip search (String c input)) as [rest|] eqn:E; [|reflexivity].
    apply istrip_length in E. simpl in *. lia.
Qed.

(** An occurrence at the very end is the last one. *)
Lemma ireplace_last_opt_suffix (search format found : string) : forall str,
  istrip search found = Some "" ->
  ireplace_last_opt (str ++ found) search format = Some (str ++ format).
Proof.
  intros str Hfound. induction str as [|c str IH]; simpl.
  - pose proof (istrip_length _ _ _ Hfound) as Hlen. simpl in Hlen.
    destruct found as [|b found]; simpl.
    + destruct search; [|simpl in Hlen; lia]. simpl.
      by rewrite append_empty_r.
    + rewrite ireplace_last_opt_short by (simpl in Hlen; lia).
      simpl in Hfound. rewrite Hfound. simpl. by rewrite append_empty_r.
  - by rewrite IH.
Qed.

Lemma ireplace_last_suffix (search format found str : string) :
  istrip search found = Some "" ->
  ireplace_last (str ++ found) search format = str ++ format.
Proof.
  intros H. unfold ireplace_last.
  by rewrite ireplace_last_opt_suffix.
Qed.

(** Whether there is an occurrence does not depend on the replacement. *)
Lemma ireplace_last_opt_none (input search format : string) :
  icontains search input = false ->
  ireplace_last_opt input search format = None.
Proof.
  unfold icontains. induction input as [|c input IH]; simpl.
  - destruct (istrip search ""); [discriminate | reflexivity].
  - destruct (ireplace_last_opt input search "") eqn:E; [discriminate|].
    rewrite IH by reflexivity.
    destruct (istrip search (String c input)); [discriminate | reflexivity].
Qed.

Lemma ireplace_last_absent (input search format : string) :
  icontains search input = false ->
  ireplace_last input search format = input.
Proof.
  intros H. unfold ireplace_last. by rewrite ireplace_last_opt_none.
Qed.

Lemma istrip_split (search : string) : forall str rest,
  istrip search str = Some rest ->
  str = "" ++ substring 0 (String.length search) str ++ rest
  /\ istrip search (substring 0 (String.length search) str) = Some "".
Proof.
  induction search as [|a search IH]; intros str rest; simpl.
  - intros [= <-]. destruct str; auto.
  - destruct str as [|b str]; [discriminate|].
    destruct (iequal a b) eqn:Eab; [|discriminate].
    intros Es. destruct (IH _ _ Es) as [E1 E2]. simpl in E1.
    simpl. rewrite Eab. split; [by rewrite <- E1 | exact E2].
Qed.

(** [icontains] holds exactly of the strings that have the search string,
    up to case, somewhere inside. *)
Lemma icontains_spec (search input : string) :
  icontains search input = true <->
  exists before found after,
    input = before ++ found ++ after /\ istrip search found = Some "".
Proof.
  unfold icontains. split.
  - induction input as [|c input IH]; simpl.
    + destruct (istrip search "") as [rest|] eqn:E; [|discriminate].
      intros _. exists "", "", "". split; [reflexivity|].
      pose proof (istrip_length _ _ _ E) as Hlen.
      destruct rest; [exact E | simpl in Hlen; lia].
    + destruct (ireplace_last_opt input search "") eqn:E.
      * intros _. destruct IH as (b & f & a & -> & Hf); [reflexivity|].
        exists (String c b), f, a. auto.
      * destruct (istrip search (String c input)) as [rest|] eqn:Es;
          [|discriminate].
        intros _.
        exists "", (substring 0 (String.length search) (String c input)), rest.
        apply istrip_split. exact Es.
  - intros (b & f & a & -> & Hf). induction b as [|c b IH]; simpl.
    + destruct (f ++ a) as [|c rest] eqn:E; simpl.
      * pose proof (istrip_append search f a Hf) as H. rewrite E in H.
        by rewrite H.
      * destruct (ireplace_last_opt rest search ""); [reflexivity|].
        pose proof (istrip_append search f a Hf) as H. rewrite E in H.
        by rewrite H.
    + simpl in IH. by destruct (ireplace_last_opt (b ++ f ++ a) search "").
Qed.

Lemma after_last_slash_append (str suffix : string) :
  after_last_slash suffix = None ->
  after_last_slash (str ++ suffix)
  = option_map (fun name => name ++ suffix) (after_last_slash str).
Proof.
  intros Hs. induction str as [|c str IH]; simpl; [exact Hs|].
  rewrite IH. destruct (after_last_slash str); simpl; [reflexivity|].
  destruct (Ascii.eqb c "/"); reflexivity.
Qed.

(** Appending a suffix without "/" to a path appends it to its file name. *)
Lemma last_piece_append (str suffix : string) :
  after_last_slash suffix = None ->
  last_piece (str ++ suffix) = last_piece str ++ suffix.
Proof.
  intros Hs. unfold last_piece. rewrite after_last_slash_append by exact Hs.
  destruct (after_last_slash str); reflexivity.
Qed.

Lemma not_dash (str : string) :
  (2 <= String.length str)%nat -> String.eqb str "-" = false.
Proof.
  intros Hlen. apply String.eqb_neq. intros ->. simpl in Hlen. lia.
Qed.

(** ** The output prefix *)

(** X10.  [OutputFilePrefix] ends the process for any extension other than
    xml and bam.  For an xml path it strips a final ".alignmentset.xml" or
    ".consensusalignmentset.xml", and for a bam path a final ".bam" and
    then a final ".subreads", each matched without regard to case; a path
    that has none of these suffixes anywhere is returned whole. *)
Theorem OutputFilePrefix_strips w :
  (forall path,
     FileExtension w path <> "xml" -> FileExtension w path <> "bam" ->
     OutputFilePrefix w path = Exits EXIT_FAILURE)
  /\ (forall path suffix,
        FileExtension w (path ++ suffix) = "xml" ->
        istrip ".alignmentset.xml" suffix = Some "" ->
        icontains ".consensusalignmentset.xml" (path ++ suffix) = false ->
        OutputFilePrefix w (path ++ suffix) = Returns path)
  /\ (forall path suffix,
        FileExtension w (path ++ suffix) = "xml" ->
        istrip ".consensusalignmentset.xml" suffix = Some "" ->
        icontains ".alignmentset.xml" path = false ->
        OutputFilePrefix w (path ++ suffix) = Returns path)
  /\ (forall path,
        FileExtension w path = "xml" ->
        icontains ".alignmentset.xml" path = false ->
        icontains ".consensusalignmentset.xml" path = false ->
        OutputFilePrefix w path = Returns path)
  /\ (forall path subreads bam,
        FileExtension w (path ++ subreads ++ bam) = "bam" ->
        istrip ".subreads" subreads = Some "" ->
        istrip ".bam" bam = Some "" ->
        OutputFilePrefix w (path ++ subreads ++ bam) = Returns path)
  /\ (forall path bam,
        FileExtension w (path ++ bam) = "bam" ->
        istrip ".bam" bam = Some "" ->
        icontains ".subreads" path = false ->
        OutputFilePrefix w (path ++ bam) = Returns path).
Proof.
  unfold OutputFilePrefix. repeat split.
  - intros path Hx Hb.
    apply String.eqb_neq in Hx, Hb. by rewrite Hx, Hb.
  - intros path suffix -> Hs Hc. simpl.
    rewrite (ireplace_last_absent _ _ _ Hc).
    rewrite (ireplace_last_suffix _ _ _ _ Hs). by rewrite append_empty_r.
  - intros path suffix -> Hs Hc. simpl.
    rewrite (ireplace_last_suffix _ _ _ _ Hs), append_empty_r.
    by rewrite (ireplace_last_absent _ _ _ Hc).
  - intros path -> Ha Hc. simpl.
    rewrite (ireplace_last_absent _ _ _ Hc).
    by rewrite (ireplace_last_absent _ _ _ Ha).
  - intros path subreads bam -> Hs Hb. simpl.
    rewrite <- append_associative.
    rewrite (ireplace_last_suffix _ _ _ _ Hb), append_empty_r.
    by rewrite (ireplace_last_suffix _ _ _ _ Hs), append_empty_r.
  - intros path bam -> Hb Hc. simpl.
    rewrite (ireplace_last_suffix _ _ _ _ Hb), append_empty_r.
    by rewrite (ireplace_last_absent _ _ _ Hc).
Qed.

Lemma OutputFilePrefix_strips_witness :
  FileExtension sample_files ("run/out" ++ ".SubReads" ++ ".bam") = "bam"
  /\ istrip ".subreads" ".SubReads" = Some ""
  /\ istrip ".bam" ".bam" = Some ""
  /\ OutputFilePrefix sample_files ("run/out" ++ ".SubReads" ++ ".bam")
     = Returns "run/out"
  /\ FileExtension sample_files "out.txt" <> "xml"
  /\ FileExtension sample_files "out.txt" <> "bam"
  /\ OutputFilePrefix sample_files "out.txt" = Exits EXIT_FAILURE.
Proof.
  destruct (OutputFilePrefix_strips sample_files)
    as (Hexit & _ & _ & _ & Hbam & _).
  assert (H1 : FileExtension sample_files "out.txt" <> "xml")
    by (vm_compute; discriminate).
  assert (H2 : FileExtension sample_files "out.txt" <> "bam")
    by (vm_compute; discriminate).
  split; [reflexivity|]. split; [reflexivity|]. split; [reflexivity|].
  split; [apply (Hbam "run/out" ".SubReads" ".bam"); reflexivity|].
  split; [exact H1|]. split; [exact H2|].
  exact (Hexit "out.txt" H1 H2).
Defined.

(** ** The files of [Runner] *)

Lemma append_cancel (a b c : string) : a ++ b = a ++ c -> b = c.
Proof.
  induction a as [|x a IH]; simpl; [auto|]. intros [= E]. auto.
Qed.

Lemma append_not_dash (path suffix : string) :
  (2 <= String.length suffix)%nat -> String.eqb (path ++ suffix) "-" = false.
Proof. intros H. apply not_dash. rewrite length_append. lia. Qed.

Lemma OutputFilePrefix_alignmentset w path :
  FileExtension w (path ++ ".alignmentset.xml") = "xml" ->
  icontains ".consensusalignmentset.xml" (path ++ ".alignmentset.xml") = false ->
  OutputFilePrefix w (path ++ ".alignmentset.xml") = Returns path.
Proof.
  intros Hx Hc. unfold OutputFilePrefix. rewrite Hx. simpl.
  rewrite (ireplace_last_absent _ _ _ Hc).
  rewrite (ireplace_last_suffix ".alignmentset.xml" "" _ _ (istrip_refl _)).
  by rewrite append_empty_r.
Qed.

Lemma OutputFilePrefix_consensusalignmentset w path :
  FileExtension w (path ++ ".consensusalignmentset.xml") = "xml" ->
  icontains ".alignmentset.xml" path = false ->
  OutputFilePrefix w (path ++ ".consensusalignmentset.xml") = Returns path.
Proof.
  intros Hx Hc. unfold OutputFilePrefix. rewrite Hx. simpl.
  rewrite (ireplace_last_suffix ".consensusalignmentset.xml" "" _ _
             (istrip_refl _)), append_empty_r.
  by rewrite (ireplace_last_absent _ _ _ Hc).
Qed.

Lemma OutputFilePrefix_unchanged w path :
  FileExtension w path = "xml" ->
  icontains ".alignmentset.xml" path = false ->
  icontains ".consensusalignmentset.xml" path = false ->
  OutputFilePrefix w path = Returns path.
Proof.
  intros Hx Ha Hc. unfold OutputFilePrefix. rewrite Hx. simpl.
  rewrite (ireplace_last_absent _ _ _ Hc).
  by rewrite (ireplace_last_absent _ _ _ Ha).
Qed.

(** X11.  With "-" as the output path the alignments go to standard
    output, nothing is checked about extensions and no dataset XML is
    written.  With a path of extension bam the alignments are written to
    exactly that path, a warning is issued once when it exists, and no
    dataset XML is written.  With any other extension than xml or bam the
    process ends with [EXIT_FAILURE] before the pipeline runs. *)
Theorem Runner_files_plain w timestamp settings args qryFile refFile outFile :
  CheckPositionalArgs w args = Returns (qryFile, refFile, outFile) ->
  (outFile = "-" ->
     Runner_files w timestamp settings args
     = Returns (mkRunnerFiles "-" []
                  (if Pbi settings then Some "-" else None) None))
  /\ (outFile <> "-" -> FileExtension w outFile = "bam" ->
        Runner_files w timestamp settings args
        = Returns (mkRunnerFiles outFile
                     (if FileExists w outFile then [outFile] else [])
                     (if Pbi settings then Some outFile else None) None))
  /\ (outFile <> "-" ->
        FileExtension w outFile <> "xml" ->
        FileExtension w outFile <> "bam" ->
        Runner_files w timestamp settings args = Exits EXIT_FAILURE
        /\ Runner w settings args = Exits EXIT_FAILURE).
Proof.
  intros E. unfold Runner_files, Runner. rewrite E.
  split; [|split].
  - intros ->. reflexivity.
  - intros Hd Hb. apply String.eqb_neq in Hd. rewrite Hd.
    unfold OutputFilePrefix. rewrite Hb. simpl.
    rewrite String.eqb_refl, app_nil_r. reflexivity.
  - intros Hd Hx Hb. apply String.eqb_neq in Hd, Hx, Hb.
    unfold OutputFilePrefix. by rewrite Hd, Hx, Hb.
Qed.

Lemma Runner_files_plain_witness :
  CheckPositionalArgs sample_files ["in.subreads.bam"; "ref.mmi"; "out.bam"]
  = Returns ("in.subreads.bam", "ref.mmi", "out.bam")
  /\ "out.bam" <> "-"
  /\ FileExtension sample_files "out.bam" = "bam"
  /\ Runner_files sample_files "2018" sample_settings
       ["in.subreads.bam"; "ref.mmi"; "out.bam"]
     = Returns (mkRunnerFiles "out.bam" [] (Some "out.bam") None).
Proof.
  assert (Hd : "out.bam" <> "-") by discriminate.
  split; [reflexivity|]. split; [exact Hd|]. split; [reflexivity|].
  exact (proj1 (proj2 (Runner_files_plain sample_files "2018" sample_settings
                         ["in.subreads.bam"; "ref.mmi"; "out.bam"]
                         _ _ _ eq_refl)) Hd eq_refl).
Defined.

(** X12.  The round trip of a dataset output: for a SUBREAD input and an
    output path [path ++ ".alignmentset.xml"], and for a CONSENSUS_READ
    input and an output path [path ++ ".consensusalignmentset.xml"], the
    alignments are written to [path ++ ".bam"] and the dataset XML is
    saved at the very path that was asked for. *)
Theorem Runner_files_xml_round_trip w timestamp settings args
    qryFile refFile path suffix :
  CheckPositionalArgs w args = Returns (qryFile, refFile, path ++ suffix) ->
  FileExtension w (path ++ suffix) = "xml" ->
  (DataSet_Type w qryFile = SUBREAD
   /\ suffix = ".alignmentset.xml"
   /\ icontains ".consensusalignmentset.xml" (path ++ suffix) = false)
  \/ (DataSet_Type w qryFile = CONSENSUS_READ
      /\ suffix = ".consensusalignmentset.xml"
      /\ icontains ".alignmentset.xml" path = false) ->
  exists files xml,
    Runner_files w timestamp settings args = Returns files
    /\ alnFile files = path ++ ".bam"
    /\ dataset files = Some (Completes xml)
    /\ ds_path xml = path ++ suffix.
Proof.
  intros E Hx Hcase. unfold Runner_files. rewrite E.
  assert (Hprefix : OutputFilePrefix w (path ++ suffix) = Returns path).
  { destruct Hcase as [(_ & -> & Hc) | (_ & -> & Hc)].
    - apply OutputFilePrefix_alignmentset; [exact Hx | exact Hc].
    - apply OutputFilePrefix_consensusalignmentset; [exact Hx | exact Hc]. }
  assert (Hd : String.eqb (path ++ suffix) "-" = false).
  { apply append_not_dash.
    destruct Hcase as [(_ & -> & _) | (_ & -> & _)]; simpl; lia. }
  rewrite Hd, Hprefix, Hx. simpl.
  destruct Hcase as [(-> & -> & _) | (-> & -> & _)]; simpl;
    eexists; eexists; (split; [reflexivity|]); simpl; auto.
Qed.

Lemma Runner_files_xml_round_trip_witness :
  CheckPositionalArgs sample_files
    ["in.subreads.bam"; "ref.mmi"; "run/out" ++ ".alignmentset.xml"]
  = Returns ("in.subreads.bam", "ref.mmi", "run/out" ++ ".alignmentset.xml")
  /\ FileExtension sample_files ("run/out" ++ ".alignmentset.xml") = "xml"
  /\ DataSet_Type sample_files "in.subreads.bam" = SUBREAD
  /\ icontains ".consensusalignmentset.xml" ("run/out" ++ ".alignmentset.xml")
     = false
  /\ exists files xml,
       Runner_files sample_files "2018" sample_settings
         ["in.subreads.bam"; "ref.mmi"; "run/out" ++ ".alignmentset.xml"]
       = Returns files
       /\ alnFile files = "run/out" ++ ".bam"
       /\ dataset files = Some (Completes xml)
       /\ ds_path xml = "run/out" ++ ".alignmentset.xml".
Proof.
  do 4 (split; [reflexivity|]).
  apply (Runner_files_xml_round_trip sample_files "2018" sample_settings
           ["in.subreads.bam"; "ref.mmi"; "run/out" ++ ".alignmentset.xml"]
           "in.subreads.bam" "ref.mmi" "run/out" ".alignmentset.xml");
    [reflexivity | reflexivity | left; repeat split; reflexivity].
Defined.

(** X13.  When the suffix of a dataset output path does not match the type
    of the input, or the path has neither of the two suffixes, the dataset
    XML is saved somewhere else than asked: a SUBREAD input with
    [path ++ ".consensusalignmentset.xml"] saves
    [path ++ ".alignmentset.xml"], a CONSENSUS_READ input with
    [path ++ ".alignmentset.xml"] saves
    [path ++ ".consensusalignmentset.xml"], and a path without either
    suffix is kept whole as the prefix, so that the alignments go to
    [outFile ++ ".bam"] and the XML to [outFile] followed by the suffix of
    the input type. *)
Theorem Runner_files_xml_elsewhere w timestamp settings args
    qryFile refFile outFile :
  CheckPositionalArgs w args = Returns (qryFile, refFile, outFile) ->
  FileExtension w outFile = "xml" ->
  (forall path,
     outFile = path ++ ".consensusalignmentset.xml" ->
     icontains ".alignmentset.xml" path = false ->
     DataSet_Type w qryFile = SUBREAD ->
     exists files xml,
       Runner_files w timestamp settings args = Returns files
       /\ alnFile files = path ++ ".bam"
       /\ dataset files = Some (Completes xml)
       /\ ds_path xml = path ++ ".alignmentset.xml"
       /\ ds_path xml <> outFile)
  /\ (forall path,
        outFile = path ++ ".alignmentset.xml" ->
        icontains ".consensusalignmentset.xml" outFile = false ->
        DataSet_Type w qryFile = CONSENSUS_READ ->
        exists files xml,
          Runner_files w timestamp settings args = Returns files
          /\ alnFile files = path ++ ".bam"
          /\ dataset files = Some (Completes xml)
          /\ ds_path xml = path ++ ".consensusalignmentset.xml"
          /\ ds_path xml <> outFile)
  /\ (outFile <> "-" ->
      icontains ".alignmentset.xml" outFile = false ->
      icontains ".consensusalignmentset.xml" outFile = false ->
      exists files xml,
        Runner_files w timestamp settings args = Returns files
        /\ alnFile files = outFile ++ ".bam"
        /\ dataset files = Some (Completes xml)
        /\ (ds_path xml = outFile ++ ".alignmentset.xml"
            \/ ds_path xml = outFile ++ ".consensusalignmentset.xml")).
Proof.
  intros E Hx. unfold Runner_files. rewrite E.
  split; [|split].
  - intros path -> Hc Hty.
    rewrite append_not_dash by (simpl; lia).
    rewrite (OutputFilePrefix_consensusalignmentset w path Hx Hc), Hx, Hty.
    simpl. eexists; eexists. split; [reflexivity|]. simpl.
    repeat split; try reflexivity.
    intros Heq. apply append_cancel in Heq. discriminate.
  - intros path -> Hc Hty.
    rewrite append_not_dash by (simpl; lia).
    rewrite (OutputFilePrefix_alignmentset w path Hx Hc), Hx, Hty.
    simpl. eexists; eexists. split; [reflexivity|]. simpl.
    repeat split; try reflexivity.
    intros Heq. apply append_cancel in Heq. discriminate.
  - intros Hd Ha Hc. apply String.eqb_neq in Hd.
    rewrite Hd, (OutputFilePrefix_unchanged w outFile Hx Ha Hc), Hx.
    apply CheckPositionalArgs_returns in E as (_ & _ & _ & _ & Hty & _).
    simpl. destruct Hty as [-> | ->]; simpl;
      eexists; eexists; (split; [reflexivity|]); simpl; auto.
Qed.

Lemma Runner_files_xml_elsewhere_witness :
  CheckPositionalArgs sample_files ["in.subreads.bam"; "ref.mmi"; "out.xml"]
  = Returns ("in.subreads.bam", "ref.mmi", "out.xml")
  /\ FileExtension sample_files "out.xml" = "xml"
  /\ exists files xml,
       Runner_files sample_files "2018" sample_settings
         ["in.subreads.bam"; "ref.mmi"; "out.xml"]
       = Returns files
       /\ alnFile files = "out.xml.bam"
       /\ dataset files = Some (Completes xml)
       /\ (ds_path xml = "out.xml.alignmentset.xml"
           \/ ds_path xml = "out.xml.consensusalignmentset.xml").
Proof.
  do 2 (split; [reflexivity|]).
  apply (Runner_files_xml_elsewhere sample_files "2018" sample_settings
           ["in.subreads.bam"; "ref.mmi"; "out.xml"]
           "in.subreads.bam" "ref.mmi" "out.xml" eq_refl eq_refl);
    [discriminate | reflexivity | reflexivity].
Defined.

(** X14.  Whenever [Runner] gets to call [CreateDataSet] the call does not
    throw, because the type of the input was checked by
    [CheckPositionalArgs].  The dataset it saves names as its resource the
    file name of the BAM file the alignments were written to, lists a PacBio
    index exactly when [Runner] builds one for that BAM file, under the
    name of that index, and is saved beside the BAM file under the same
    prefix, with the metatype and suffix of the input type. *)
Theorem Runner_files_dataset w timestamp settings args files :
  Runner_files w timestamp settings args = Returns files ->
  pbi_built_for files = (if Pbi settings then Some (alnFile files) else None)
  /\ forall d,
       dataset files = Some d ->
       exists xml prefix,
         d = Completes xml
         /\ alnFile files = prefix ++ ".bam"
         /\ ds_resource xml = last_piece (alnFile files)
         /\ ds_index xml
            = option_map (fun bam => last_piece bam ++ ".pbi")
                         (pbi_built_for files)
         /\ (ds_type xml = SUBREAD
             /\ ds_metatype xml = "PacBio.AlignmentFile.AlignmentBamFile"
             /\ ds_path xml = prefix ++ ".alignmentset.xml"
             \/ ds_type xml = CONSENSUS_READ
                /\ ds_metatype xml
                   = "PacBio.AlignmentFile.ConsensusAlignmentBamFile"
                /\ ds_path xml = prefix ++ ".consensusalignmentset.xml").
Proof.
  unfold Runner_files.
  destruct (CheckPositionalArgs w args) as [[[qry ref] outFile]|] eqn:E;
    [|discriminate].
  apply CheckPositionalArgs_returns in E as (_ & _ & _ & _ & Hty & _).
  destruct (String.eqb outFile "-").
  { intros [= <-]. simpl. split; [reflexivity | discriminate]. }
  destruct (OutputFilePrefix w outFile) as [prefix|]; [|discriminate].
  destruct (String.eqb (FileExtension w outFile) "xml").
  2:{ intros [= <-]. simpl. split; [reflexivity | discriminate]. }
  intros [= <-]. simpl. split; [reflexivity|].
  intros d [= <-].
  assert (Hname : last_piece (prefix ++ ".bam") = last_piece prefix ++ ".bam")
    by (apply last_piece_append; reflexivity).
  destruct Hty as [-> | ->]; simpl;
    eexists; exists prefix; (split; [reflexivity|]); simpl;
    rewrite Hname;
    (split; [reflexivity|]); (split; [reflexivity|]);
    (split; [destruct (Pbi settings); simpl;
             [rewrite Hname, append_associative|]; reflexivity|]);
    auto.
Qed.

Lemma Runner_files_dataset_witness :
  exists files,
    Runner_files sample_files "2018" sample_settings
      ["in.subreads.bam"; "ref.mmi"; "run/out.alignmentset.xml"]
    = Returns files
    /\ alnFile files = "run/out.bam"
    /\ overwrite_warnings files = ["run/out.alignmentset.xml"]
    /\ pbi_built_for files = Some "run/out.bam"
    /\ exists xml,
         dataset files = Some (Completes xml)
         /\ ds_resource xml = "out.bam"
         /\ ds_index xml = Some "out.bam.pbi"
         /\ ds_path xml = "run/out.alignmentset.xml".
Proof.
  eexists. split; [reflexivity|].
  pose proof (Runner_files_dataset sample_files "2018" sample_settings
                ["in.subreads.bam"; "ref.mmi"; "run/out.alignmentset.xml"]
                _ eq_refl) as [Hpbi Hds].
  split; [reflexivity|]. split; [reflexivity|]. split; [exact Hpbi|].
  eexists. split; [reflexivity|]. repeat split; reflexivity.
Defined.

End StringFacts.

(** ** More on the batching loop *)

Section BatcherMore.
Context {A : Type} (dflt : A) (C : nat).
Hypothesis C_pos : (0 < C)%nat.
Local Open Scope nat_scope.

Lemma replicate_lengths (ls : list (list A)) n :
  map length ls = replicate n C ->
  length ls = n /\ Forall (fun l => length l = C) ls.
Proof.
  revert n. induction ls as [|l ls IH]; intros [|n]; simpl; try discriminate.
  - auto.
  - intros [= Hl Hls]. destruct (IH n Hls) as [-> Hall]. auto.
Qed.

Lemma batch_loop_checked_in_bounds input : forall i records queue,
  length records = C -> i < C ->
  exists i' records' queue',
    Batcher.batch_loop dflt C input i records queue = (i', records', queue')
    /\ batch_loop_checked dflt C input i records queue
       = Some (i', records', queue')
    /\ i' <= length records'.
Proof.
  induction input as [|r rest IH]; intros i records queue Hlen Hi.
  - simpl. destruct (Nat.leb_spec (length records) i); [lia|].
    eexists _, _, _. repeat split. lia.
  - cbn [Batcher.batch_loop batch_loop_checked].
    destruct (Nat.leb_spec (length records) i); [lia|].
    destruct (Nat.leb_spec C (S i)).
    + apply IH; [apply length_replicate | lia].
    + apply IH; [by rewrite length_insert | lia].
Qed.
End BatcherMore.

(** X1.  For a positive chunk size and an input of R records the loop
    submits R / C + 1 batches; the first R / C have exactly C records and
    the last has (R mod C) + 1; so no batch is empty and none exceeds the
    chunk size. *)
Theorem Runner_batches_sizes {A : Type} (dflt : A) (C : nat) input :
  (0 < C)%nat ->
  let bs := Batcher.Runner_batches dflt C input in
  length bs = S (length input / C)
  /\ Forall (fun b => (1 <= length b <= C)%nat) bs
  /\ (forall i b, (i < length input / C)%nat -> bs !! i = Some b ->
                  length b = C)
  /\ (exists b, last bs = Some b /\ length b = S (length input mod C)).
Proof.
  intros HC bs. subst bs.
  destruct (Runner_batches_shape dflt C HC input)
    as (full & final & -> & Hfull & Hfinal & _).
  apply replicate_lengths in Hfull as [Hn Hall].
  assert (Hmod : (length input mod C < C)%nat) by (apply Nat.mod_upper_bound; lia).
  assert (Hlast : length (final ++ [dflt]) = S (length input mod C)).
  { rewrite length_app. simpl. lia. }
  split; [rewrite length_app; simpl; lia|].
  split.
  { apply Forall_app. split.
    - eapply Forall_impl; [exact Hall|]. simpl. intros b ->. lia.
    - constructor; [|constructor]. rewrite Hlast. lia. }
  split.
  { intros i b Hi Hb. rewrite lookup_app_l in Hb by lia.
    eapply Forall_lookup_1 in Hall; [exact Hall | exact Hb]. }
  exists (final ++ [dflt]). split; [apply last_snoc | exact Hlast].
Qed.

Lemma Runner_batches_sizes_witness :
  (0 < chunkSize)%nat
  /\ length (Batcher.Runner_batches BamRecord_default chunkSize
               (replicate 250 read_1)) = 3%nat
  /\ Forall (fun b => (1 <= length b <= chunkSize)%nat)
       (Batcher.Runner_batches BamRecord_default chunkSize
          (replicate 250 read_1)).
Proof.
  assert (H : (0 < chunkSize)%nat) by (unfold chunkSize; lia).
  split; [exact H|].
  destruct (Runner_batches_sizes BamRecord_default chunkSize
              (replicate 250 read_1) H) as (Hlen & Hall & _).
  split; [exact Hlen | exact Hall].
Defined.

(** X2.  For a positive chunk size the batches, taken in the order of
    submission, hold the input records in input order, each once, followed
    by one default-constructed record, which is the last record of the last
    batch. *)
Theorem Runner_batches_in_order {A : Type} (dflt : A) (C : nat) input :
  (0 < C)%nat ->
  let bs := Batcher.Runner_batches dflt C input in
  concat bs = input ++ [dflt]
  /\ exists b, last bs = Some b /\ last b = Some dflt.
Proof.
  intros HC bs. subst bs. split; [by apply Runner_batches_concat|].
  destruct (Runner_batches_shape dflt C HC input) as (full & final & -> & _).
  exists (final ++ [dflt]). split; apply last_snoc.
Qed.

Lemma Runner_batches_in_order_witness :
  (0 < chunkSize)%nat
  /\ concat (Batcher.Runner_batches BamRecord_default chunkSize
               [aln_100_0; aln_50_5])
     = [aln_100_0; aln_50_5; BamRecord_default].
Proof.
  assert (H : (0 < chunkSize)%nat) by (unfold chunkSize; lia).
  split; [exact H|].
  exact (proj1 (Runner_batches_in_order BamRecord_default chunkSize
                  [aln_100_0; aln_50_5] H)).
Defined.

(** X3.  For a positive chunk size every slot the loop hands to [GetNext]
    lies inside the vector and [resize] never has to grow it: the loop with
    checked accesses has a result, the one of the plain loop.  With a chunk
    size of zero the first access is already outside the (empty) vector. *)
Theorem Runner_batches_in_bounds {A : Type} (dflt : A) input :
  (forall C, (0 < C)%nat ->
     Runner_batches_checked dflt C input
     = Some (Batcher.Runner_batches dflt C input))
  /\ Runner_batches_checked dflt 0 input = None.
Proof.
  split.
  - intros C HC. unfold Runner_batches_checked, Batcher.Runner_batches.
    destruct (batch_loop_checked_in_bounds dflt C HC input 0
                (Batcher.fresh_buffer dflt C) [])
      as (i' & records' & queue' & E & Ec & Hle);
      [apply length_replicate | exact HC |].
    rewrite E, Ec. simpl.
    destruct (0 <? i')%nat; [|reflexivity].
    destruct (Nat.leb_spec i' (length records')); [reflexivity | lia].
  - unfold Runner_batches_checked. destruct input; reflexivity.
Qed.

Lemma Runner_batches_in_bounds_witness :
  (0 < chunkSize)%nat
  /\ Runner_batches_checked BamRecord_default chunkSize [read_1]
     = Some [[read_1; BamRecord_default]].
Proof.
  assert (H : (0 < chunkSize)%nat) by (unfold chunkSize; lia).
  split; [exact H|].
  exact (proj1 (Runner_batches_in_bounds BamRecord_default [read_1])
           chunkSize H).
Defined.

(** ** More on the writer *)

Lemma progress_marks_S n :
  progress_marks (S n)
  = if (S n mod 1000 =? 0)%nat
    then progress_marks n ++ [Z.of_nat (S n)]
    else progress_marks n.
Proof.
  unfold progress_marks.
  pose proof (Nat.div_mod_eq n 1000) as Hn.
  pose proof (Nat.mod_upper_bound n 1000 ltac:(lia)) as Hr.
  destruct (Nat.eq_dec (n mod 1000)%nat 999%nat) as [E | E].
  - assert (Hq : (S n / 1000 = S (n / 1000))%nat).
    { symmetry. apply (Nat.div_unique _ _ _ 0%nat); lia. }
    assert (Hm : (S n mod 1000 = 0)%nat).
    { symmetry. apply (Nat.mod_unique _ _ (S (n / 1000))%nat); lia. }
    rewrite Hq, Hm. simpl Nat.eqb. cbv iota.
    rewrite seq_S, map_app. cbn [map]. do 2 f_equal. lia.
  - assert (Hq : (S n / 1000 = n / 1000)%nat).
    { symmetry. apply (Nat.div_unique _ _ _ (S (n mod 1000))%nat); lia. }
    assert (Hm : (S n mod 1000 = S (n mod 1000))%nat).
    { symmetry. apply (Nat.mod_unique _ _ (n / 1000)%nat); lia. }
    rewrite Hq, Hm. reflexivity.
Qed.

Lemma write_record_progress alns :
  Z.of_nat (length alns) < 2 ^ 63 ->
  alignedRecords (fold_left write_record alns Sink_init)
  = Z.of_nat (length alns)
  /\ progress (fold_left write_record alns Sink_init)
     = progress_marks (length alns).
Proof.
  induction alns as [|aln alns IH] using rev_ind; intros Hlen.
  - split; reflexivity.
  - rewrite length_app in Hlen. simpl in Hlen.
    destruct IH as [Hcount Hprog]; [lia|].
    rewrite fold_left_app. simpl fold_left.
    set (st := fold_left write_record alns Sink_init) in *.
    unfold write_record. simpl.
    rewrite Hcount, Hprog, length_app. simpl length.
    replace (length alns + 1)%nat with (S (length alns)) by lia.
    assert (Hw : wrap64 (Z.of_nat (length alns) + 1)
                 = Z.of_nat (S (length alns))).
    { rewrite wrap64_small; [lia | unfold in_int64; lia]. }
    rewrite Hw. split; [reflexivity|].
    rewrite progress_marks_S.
    assert (Hrem : Z.rem (Z.of_nat (S (length alns))) 1000
                   = Z.of_nat (S (length alns) mod 1000)%nat).
    { rewrite Z.rem_mod_nonneg by lia.
      rewrite (Nat2Z.inj_mod (S (length alns)) 1000%nat). reflexivity. }
    rewrite Hrem.
    destruct (Nat.eqb_spec (S (length alns) mod 1000)%nat 0%nat) as [E | E].
    + rewrite E. reflexivity.
    + destruct (Z.eqb_spec (Z.of_nat (S (length alns) mod 1000)%nat) 0);
        [lia | reflexivity].
Qed.

(** X4.  A writer that has written n records (fewer than 2^63) has counted
    n records and has logged its progress exactly at the counts 1000,
    2000, ..., up to the last multiple of 1000 that is at most n, once
    each and in this order. *)
Theorem WriterThread_progress results :
  Z.of_nat (length (flat_results results)) < 2 ^ 63 ->
  alignedRecords (fst (WriterThread results))
  = Z.of_nat (length (flat_results results))
  /\ progress (fst (WriterThread results))
     = progress_marks (length (flat_results results)).
Proof.
  intros Hlen. unfold WriterThread. simpl fst.
  rewrite fold_WriteRecords_flat. apply write_record_progress. exact Hlen.
Qed.

Lemma WriterThread_progress_witness :
  Z.of_nat (length (flat_results
                      [Some (replicate 1500 aln_100_0);
                       Some (replicate 1000 aln_50_5)])) < 2 ^ 63
  /\ progress (fst (WriterThread [Some (replicate 1500 aln_100_0);
                                  Some (replicate 1000 aln_50_5)]))
     = [1000; 2000].
Proof.
  assert (H : Z.of_nat (length (flat_results
                                  [Some (replicate 1500 aln_100_0);
                                   Some (replicate 1000 aln_50_5)]))
              < 2 ^ 63) by (vm_compute; reflexivity).
  split; [exact H|].
  exact (proj2 (WriterThread_progress _ H)).
Defined.

(** X5.  What the writer does depends only on the sequence of records it
    is handed: absent and empty results, and the way the records are
    grouped into results, change neither the output, nor the summary, nor
    the progress log, nor the report. *)
Theorem WriterThread_regroup results1 results2 :
  flat_results results1 = flat_results results2 ->
  WriterThread results1 = WriterThread results2.
Proof.
  intros E. unfold WriterThread.
  rewrite !fold_WriteRecords_flat, E. reflexivity.
Qed.

Lemma WriterThread_regroup_witness :
  flat_results [Some [aln_100_0; aln_50_5]]
  = flat_results [None; Some [aln_100_0]; Some []; Some [aln_50_5]]
  /\ WriterThread [Some [aln_100_0; aln_50_5]]
     = WriterThread [None; Some [aln_100_0]; Some []; Some [aln_50_5]].
Proof.
  split; [reflexivity|].
  apply (WriterThread_regroup [Some [aln_100_0; aln_50_5]]
           [None; Some [aln_100_0]; Some []; Some [aln_50_5]]).
  reflexivity.
Defined.

Lemma flat_results_Permutation results1 results2 :
  results1 ≡ₚ results2 -> flat_results results1 ≡ₚ flat_results results2.
Proof.
  unfold flat_results. induction 1 as [|r l1 l2 _ IH|r1 r2 l|l1 l2 l3 _ IH1 _ IH2];
    simpl.
  - reflexivity.
  - by apply Permutation_app_head.
  - rewrite !app_assoc. apply Permutation_app_tail, Permutation_app_comm.
  - by etrans.
Qed.

Lemma total_span_Permutation alns1 alns2 :
  alns1 ≡ₚ alns2 -> total_span alns1 = total_span alns2.
Proof.
  induction 1 as [|a l1 l2 _ IH|a1 a2 l|l1 l2 l3 _ IH1 _ IH2]; simpl; lia.
Qed.

(** X6.  The results may reach the writer in any order: a permutation of
    the results leaves the number of alignments, the number of bases and
    the record counter as they are, in the summary and in the report, and
    the output holds the same records, up to their order. *)
Theorem WriterThread_any_order results1 results2 :
  results1 ≡ₚ results2 ->
  out (fst (WriterThread results1)) ≡ₚ out (fst (WriterThread results2))
  /\ NumAlns (s (fst (WriterThread results1)))
     = NumAlns (s (fst (WriterThread results2)))
  /\ Bases (s (fst (WriterThread results1)))
     = Bases (s (fst (WriterThread results2)))
  /\ alignedRecords (fst (WriterThread results1))
     = alignedRecords (fst (WriterThread results2))
  /\ rep_alignments (snd (WriterThread results1))
     = rep_alignments (snd (WriterThread results2))
  /\ rep_bases (snd (WriterThread results1))
     = rep_bases (snd (WriterThread results2)).
Proof.
  intros HP. apply flat_results_Permutation in HP.
  unfold WriterThread. simpl fst. simpl snd. unfold final_report. simpl.
  rewrite !fold_WriteRecords_flat.
  destruct (fold_write_record (flat_results results1) Sink_init Sink_init_wf)
    as (Ho1 & Hn1 & Hb1 & _ & Ha1 & _).
  destruct (fold_write_record (flat_results results2) Sink_init Sink_init_wf)
    as (Ho2 & Hn2 & Hb2 & _ & Ha2 & _).
  simpl in *.
  rewrite Ho1, Ho2, Hn1, Hn2, Hb1, Hb2, Ha1, Ha2.
  rewrite (Permutation_length HP), (total_span_Permutation _ _ HP).
  repeat split; try reflexivity. exact HP.
Qed.

Lemma WriterThread_any_order_witness :
  [Some [aln_100_0]; Some [aln_50_5]] ≡ₚ [Some [aln_50_5]; Some [aln_100_0]]
  /\ out (fst (WriterThread [Some [aln_100_0]; Some [aln_50_5]]))
     ≡ₚ out (fst (WriterThread [Some [aln_50_5]; Some [aln_100_0]])).
Proof.
  assert (H : [Some [aln_100_0]; Some [aln_50_5]]
              ≡ₚ [Some [aln_50_5]; Some [aln_100_0]]) by apply perm_swap.
  split; [exact H|].
  exact (proj1 (WriterThread_any_order _ _ H)).
Defined.

(** ** The pipeline from end to end *)

Section PipelineFacts.
Variable settings : AlignSettings.
Variable mm_map : BamRecord -> list BamRecord.
Variable outputIsXML : bool.
Variable input : list BamRecord.

Lemma chunkSize_pos : (0 < chunkSize)%nat.
Proof. unfold chunkSize. lia. Qed.

(** The records of the results of a list of batches are the accepted
    candidates of all their reads. *)
Lemma flat_results_Align (bs : list (list BamRecord)) :
  flat_results (map (Align mm_map (filter settings)) bs)
  = List.filter (filter settings) (concat (map mm_map (concat bs))).
Proof.
  unfold flat_results. induction bs as [|b bs IH]; simpl; [reflexivity|].
  rewrite IH, map_app, concat_app, List.filter_app. reflexivity.
Qed.

Lemma sink_out_consumed st :
  system_inv settings mm_map outputIsXML input st ->
  out (sink st) = flat_results (consumed st).
Proof.
  intros (k & _ & _ & _ & _ & Hsink & _).
  rewrite Hsink, fold_WriteRecords_flat.
  destruct (fold_write_record (flat_results (consumed st)) Sink_init
              Sink_init_wf) as (Ho & _).
  exact Ho.
Qed.

Lemma consumed_from_batches st r :
  system_inv settings mm_map outputIsXML input st ->
  r ∈ consumed st ->
  exists b, r = Align mm_map (filter settings) b.
Proof.
  intros (k & _ & _ & _ & Hperm & _) Hr.
  assert (Hin : r ∈ map (Align mm_map (filter settings))
                        (take k (batches input))).
  { rewrite <- Hperm. apply elem_of_app. auto. }
  apply list_elem_of_In, in_map_iff in Hin as (b & Hb & _). eauto.
Qed.

Lemma past_join st c :
  system_inv settings mm_map outputIsXML input st ->
  c ∈ done st -> c = Join \/ post_processing c ->
  writer_exited st = true
  /\ queued st = []
  /\ consumed st ≡ₚ map (Align mm_map (filter settings)) (batches input).
Proof.
  intros (k & Hdone & _ & _ & Hperm & _ & Hexit & Hjoin) Hin Hc.
  assert (Hk : (length (batches input) + 1 < k)%nat).
  { rewrite Hdone in Hin. apply list_elem_of_lookup in Hin as [i Hi].
    apply lookup_take_Some in Hi as [Hi Hik].
    apply Runner_calls_lookup in Hi.
    destruct Hc as [-> | [-> | [-> | ->]]]; lia. }
  pose proof (Hjoin Hk) as Hw. destruct (Hexit Hw) as [_ Hq].
  rewrite Hq, app_nil_r in Hperm. rewrite take_ge in Hperm by lia.
  auto.
Qed.
End PipelineFacts.

(** X15.  From end to end: once the driver is past the [Join], the output
    holds, up to the order in which the results were consumed, exactly the
    candidate alignments that the filter accepts, of every input record and
    of the one default-constructed record of the last batch. *)
Theorem pipeline_output settings mm_map outputIsXML input st c :
  reachable settings mm_map outputIsXML input st ->
  c ∈ done st -> c = Join \/ post_processing c ->
  out (sink st)
  ≡ₚ List.filter (filter settings)
       (concat (map mm_map (input ++ [BamRecord_default]))).
Proof.
  intros Hreach Hin Hc. apply reachable_inv in Hreach.
  destruct (past_join _ _ _ _ _ _ Hreach Hin Hc) as (_ & _ & Hperm).
  rewrite (sink_out_consumed _ _ _ _ _ Hreach).
  rewrite (flat_results_Permutation _ _ Hperm), flat_results_Align.
  unfold batches.
  rewrite (Runner_batches_concat BamRecord_default chunkSize chunkSize_pos).
  reflexivity.
Qed.

Lemma pipeline_output_witness :
  reachable sample_settings sample_mm_map false [] sample_joined
  /\ Join ∈ done sample_joined
  /\ out (sink sample_joined)
     ≡ₚ List.filter (filter sample_settings)
          (concat (map sample_mm_map ([] ++ [BamRecord_default]))).
Proof.
  assert (Hin : Join ∈ done sample_joined).
  { simpl. apply list_elem_of_In. simpl. auto. }
  split; [exact sample_joined_reachable|]. split; [exact Hin|].
  exact (pipeline_output sample_settings sample_mm_map false []
           sample_joined Join sample_joined_reachable Hin
           (or_introl eq_refl)).
Defined.

(** X16.  In no reachable state has the writer written a record that the
    filter rejects: every record of the output passes the filter, and so
    spans at least one reference base. *)
Theorem output_passes_filter settings mm_map outputIsXML input st :
  reachable settings mm_map outputIsXML input st ->
  Forall (fun aln => filter settings aln = true /\ 1 <= span aln)
         (out (sink st)).
Proof.
  intros Hreach. apply reachable_inv in Hreach.
  rewrite (sink_out_consumed _ _ _ _ _ Hreach).
  apply Forall_forall. intros aln Hin.
  unfold flat_results in Hin.
  apply list_elem_of_In, in_concat in Hin as (alns & Halns & Haln).
  apply in_map_iff in Halns as (r & <- & Hr).
  apply list_elem_of_In in Hr.
  destruct (consumed_from_batches _ _ _ _ _ _ Hreach Hr) as (b & ->).
  simpl in Haln. apply filter_In in Haln as [_ Hf].
  split; [exact Hf | eapply filter_true_span; exact Hf].
Qed.

Lemma output_passes_filter_witness :
  reachable sample_settings sample_mm_map false [] sample_joined
  /\ Forall (fun aln => filter sample_settings aln = true /\ 1 <= span aln)
       (out (sink sample_joined)).
Proof.
  split; [exact sample_joined_reachable|].
  exact (output_passes_filter sample_settings sample_mm_map false []
           sample_joined sample_joined_reachable).
Defined.

(** ** Progress of the system *)

Section ProgressFacts.
Variable settings : AlignSettings.
Variable mm_map : BamRecord -> list BamRecord.
Variable outputIsXML : bool.
Variable input : list BamRecord.
Hypothesis threads_pos : 0 < NumThreads settings.

Lemma steps_inv st st' :
  system_inv settings mm_map outputIsXML input st ->
  steps settings mm_map st st' ->
  system_inv settings mm_map outputIsXML input st'.
Proof.
  intros Hinv Hsteps. induction Hsteps as [|st st1 st2 Hstep _ IH];
    [exact Hinv|].
  apply IH. eapply system_inv_step; eauto.
Qed.

Lemma Runner_calls_length :
  (length (batches input) + 3
   <= length (Runner_calls settings outputIsXML input))%nat.
Proof.
  unfold Runner_calls. rewrite !length_app, length_map.
  destruct (Pbi settings), outputIsXML; simpl; lia.
Qed.

(** One step towards the end, followed by what the induction gives. *)
Lemma step_then (n : nat) st st1 :
  (forall st0,
     system_inv settings mm_map outputIsXML input st0 ->
     (2 * length (pending st0) + length (queued st0)
      + (if writer_exited st0 then 0 else 1) <= n)%nat ->
     exists st', steps settings mm_map st0 st' /\ completed st') ->
  system_inv settings mm_map outputIsXML input st ->
  step settings mm_map st st1 ->
  (2 * length (pending st1) + length (queued st1)
   + (if writer_exited st1 then 0 else 1) <= n)%nat ->
  exists st', steps settings mm_map st st' /\ completed st'.
Proof.
  intros IH Hinv Hstep Hm.
  destruct (IH st1) as (st' & Hsteps & Hdone);
    [eapply system_inv_step; eauto | exact Hm |].
  exists st'. split; [eapply steps_step; eauto | exact Hdone].
Qed.

Lemma can_complete (n : nat) : forall st,
  system_inv settings mm_map outputIsXML input st ->
  (2 * length (pending st) + length (queued st)
   + (if writer_exited st then 0 else 1) <= n)%nat ->
  exists st', steps settings mm_map st st' /\ completed st'.
Proof.
  induction n as [|n IH]; intros st Hinv Hm.
  - exists st. split; [constructor|]. unfold completed.
    destruct (pending st), (writer_exited st); simpl in Hm; try lia.
    split; reflexivity.
  - pose proof Hinv as (k & _ & Hpend & Hfin & _ & _ & Hexit & _).
    destruct (writer_exited st) eqn:Ew.
    + (* the writer has exited: the driver moves on *)
      destruct (Hexit eq_refl) as [_ Hq].
      destruct (pending st) as [|c rest] eqn:Ep.
      { exists st. split; [constructor | split; assumption]. }
      simpl in Hm. rewrite Hq in Hm. simpl in Hm.
      destruct c.
      * eapply (step_then n); [exact IH | exact Hinv | |].
        -- eapply step_produce; [exact Ep | rewrite Hq; simpl; lia].
        -- simpl. rewrite Hq, Ew. simpl. lia.
      * eapply (step_then n); [exact IH | exact Hinv | |].
        -- eapply step_finalize; exact Ep.
        -- simpl. rewrite Hq, Ew. simpl. lia.
      * eapply (step_then n); [exact IH | exact Hinv | |].
        -- eapply step_join; [exact Ep | exact Ew].
        -- simpl. rewrite Hq, Ew. simpl. lia.
      * eapply (step_then n); [exact IH | exact Hinv | |].
        -- eapply step_after; [exact Ep | left; reflexivity].
        -- simpl. rewrite Hq, Ew. simpl. lia.
      * eapply (step_then n); [exact IH | exact Hinv | |].
        -- eapply step_after; [exact Ep | right; left; reflexivity].
        -- simpl. rewrite Hq, Ew. simpl. lia.
      * eapply (step_then n); [exact IH | exact Hinv | |].
        -- eapply step_after; [exact Ep | right; right; reflexivity].
        -- simpl. rewrite Hq, Ew. simpl. lia.
    + destruct (queued st) as [|r q] eqn:Eq.
      * (* the queue is empty: the driver moves on, or the writer exits *)
        destruct (pending st) as [|c rest] eqn:Ep.
        { assert (Hf : finalized st = true).
          { apply Hfin. pose proof Runner_calls_length as Hlen.
            assert (Hd : length (drop k (Runner_calls settings outputIsXML input))
                         = 0%nat) by (rewrite <- Hpend; reflexivity).
            rewrite length_drop in Hd. lia. }
          eexists. split.
          - eapply steps_step; [|apply steps_refl].
            apply step_writer_exit; assumption.
          - split; [exact Ep | reflexivity]. }
        simpl in Hm.
        destruct c.
        -- eapply (step_then n); [exact IH | exact Hinv | |].
           ++ eapply step_produce; [exact Ep | rewrite Eq; simpl; lia].
           ++ simpl. rewrite Eq, Ew. simpl. lia.
        -- eapply (step_then n); [exact IH | exact Hinv | |].
           ++ eapply step_finalize; exact Ep.
           ++ simpl. rewrite Eq, Ew. simpl. lia.
        -- (* the driver waits in [join]: the writer exits first *)
           assert (Hf : finalized st = true).
           { apply Hfin. symmetry in Hpend.
             apply pending_head in Hpend as (Hk & _).
             apply Runner_calls_lookup in Hk. lia. }
           eapply (step_then n); [exact IH | exact Hinv | |].
           ++ apply step_writer_exit; assumption.
           ++ simpl. rewrite Ep, Eq. simpl. lia.
        -- eapply (step_then n); [exact IH | exact Hinv | |].
           ++ eapply step_after; [exact Ep | left; reflexivity].
           ++ simpl. rewrite Eq, Ew. simpl. lia.
        -- eapply (step_then n); [exact IH | exact Hinv | |].
           ++ eapply step_after; [exact Ep | right; left; reflexivity].
           ++ simpl. rewrite Eq, Ew. simpl. lia.
        -- eapply (step_then n); [exact IH | exact Hinv | |].
           ++ eapply step_after; [exact Ep | right; right; reflexivity].
           ++ simpl. rewrite Eq, Ew. simpl. lia.
      * (* the writer consumes the oldest result *)
        simpl in Hm.
        eapply (step_then n); [exact IH | exact Hinv | |].
        -- eapply (step_consume _ _ _ [] r q); [exact Ew | exact Eq].
        -- simpl. rewrite Ew. lia.
Qed.
End ProgressFacts.

Lemma steps_reachable settings mm_map outputIsXML input st st' :
  reachable settings mm_map outputIsXML input st ->
  steps settings mm_map st st' ->
  reachable settings mm_map outputIsXML input st'.
Proof.
  intros Hreach Hsteps. induction Hsteps as [|st st1 st2 Hstep _ IH];
    [exact Hreach|].
  apply IH. eapply reachable_step; eauto.
Qed.

(** X17.  With at least one thread the pipeline cannot get stuck: from
    every reachable state some run leads to a state in which the driver has
    made all the calls of its program and the writer thread has returned,
    with nothing left in the queue. *)
Theorem pipeline_can_complete settings mm_map outputIsXML input st :
  0 < NumThreads settings ->
  reachable settings mm_map outputIsXML input st ->
  exists st',
    steps settings mm_map st st'
    /\ completed st'
    /\ done st' = Runner_calls settings outputIsXML input
    /\ queued st' = [].
Proof.
  intros Hthreads Hreach.
  pose proof (reachable_inv _ _ _ _ _ Hreach) as Hinv.
  destruct (can_complete settings mm_map outputIsXML input Hthreads _ st Hinv
              (Nat.le_refl _)) as (st' & Hsteps & Hpend & Hexit).
  exists st'. split; [exact Hsteps|]. split; [split; assumption|].
  pose proof (steps_inv _ _ _ _ _ _ Hinv Hsteps)
    as (k & Hdone & Hp & _ & _ & _ & Hq & _).
  split; [|apply Hq; exact Hexit].
  rewrite <- (take_drop k (Runner_calls settings outputIsXML input)).
  rewrite <- Hdone, <- Hp, Hpend, app_nil_r. reflexivity.
Qed.

Lemma pipeline_can_complete_witness :
  0 < NumThreads sample_settings
  /\ reachable sample_settings sample_mm_map false [] sample_joined
  /\ exists st',
       steps sample_settings sample_mm_map sample_joined st'
       /\ completed st'
       /\ done st' = Runner_calls sample_settings false []
       /\ queued st' = [].
Proof.
  assert (H : 0 < NumThreads sample_settings) by reflexivity.
  split; [exact H|]. split; [exact sample_joined_reachable|].
  exact (pipeline_can_complete sample_settings sample_mm_map false []
           sample_joined H sample_joined_reachable).
Defined.

(** ** More on the filter *)

(** X18.  The length threshold is monotone: a record accepted under a
    threshold is accepted under every smaller one, the accuracy threshold
    being the same; and every threshold of at most 1 accepts the same
    records, because a span below 1 is rejected whatever the threshold. *)
Theorem filter_length_threshold accuracy threads pbi len1 len2 aln :
  let settings len := mkAlignSettings accuracy len threads pbi in
  (len1 <= len2 ->
   filter (settings len2) aln = true -> filter (settings len1) aln = true)
  /\ (len1 <= 1 -> len2 <= 1 ->
      filter (settings len1) aln = filter (settings len2) aln).
Proof.
  intros settings. split.
  - intros Hle H. apply filter_true_iff in H as [Hsp Hacc].
    apply filter_true_iff. simpl in *. split; [lia | exact Hacc].
  - intros H1 H2. unfold filter. simpl.
    destruct (Z.leb_spec (span aln) 0); [reflexivity|].
    destruct (Z.ltb_spec (span aln) len1), (Z.ltb_spec (span aln) len2);
      try lia. reflexivity.
Qed.

Lemma filter_length_threshold_witness :
  40 <= 50
  /\ filter (mkAlignSettings 0.75%float 50 4 true) aln_50_5 = true
  /\ filter (mkAlignSettings 0.75%float 40 4 true) aln_50_5 = true.
Proof.
  assert (H : 40 <= 50) by lia.
  assert (Hf : filter (mkAlignSettings 0.75%float 50 4 true) aln_50_5 = true)
    by reflexivity.
  split; [exact H|]. split; [exact Hf|].
  exact (proj1 (filter_length_threshold 0.75%float 4 true 40 50 aln_50_5)
           H Hf).
Defined.

(** ** More on the dataset *)

Section DataSetFacts.
Local Open Scope string_scope.

Lemma after_last_slash_none (str name : string) :
  after_last_slash str = Some name -> after_last_slash name = None.
Proof.
  revert name. induction str as [|c str IH]; intros name; simpl;
    [discriminate|].
  destruct (after_last_slash str) as [name'|] eqn:E.
  - intros [= <-]. apply IH. reflexivity.
  - destruct (Ascii.eqb c "/"); [|discriminate]. intros [= <-]. exact E.
Qed.

Lemma last_piece_no_slash (path : string) :
  after_last_slash (last_piece path) = None.
Proof.
  unfold last_piece. destruct (after_last_slash path) as [name|] eqn:E; simpl.
  - eapply after_last_slash_none. exact E.
  - exact E.
Qed.

(** X19.  [CreateDataSet] throws for every dataset type other than SUBREAD
    and CONSENSUS_READ and completes for these two.  The dataset it saves
    is named after the last piece of the output prefix; its resource is
    that name followed by ".bam", with no "/" in it, so the resource is
    relative to the directory of the XML file; its index is listed exactly
    when [Pbi] is set; and the XML file is the whole prefix followed by the
    suffix of the type. *)
Theorem CreateDataSetFile_spec timestamp type outputFile settings :
  ((exists what,
      CreateDataSetFile timestamp type outputFile settings = Throws what)
   <-> type <> SUBREAD /\ type <> CONSENSUS_READ)
  /\ forall xml,
       CreateDataSetFile timestamp type outputFile settings = Completes xml ->
       ds_type xml = type
       /\ ds_name xml = last_piece outputFile
       /\ ds_resource xml = ds_name xml ++ ".bam"
       /\ after_last_slash (ds_resource xml) = None
       /\ ds_index xml
          = (if Pbi settings then Some (ds_resource xml ++ ".pbi") else None)
       /\ ds_timestamped_name xml = ds_name xml ++ "-" ++ timestamp
       /\ (type = SUBREAD /\ ds_path xml = outputFile ++ ".alignmentset.xml"
           \/ type = CONSENSUS_READ
              /\ ds_path xml = outputFile ++ ".consensusalignmentset.xml").
Proof.
  assert (Hbam : after_last_slash (last_piece outputFile ++ ".bam") = None).
  { rewrite after_last_slash_append by reflexivity.
    by rewrite last_piece_no_slash. }
  split.
  - split.
    + intros [what E]. destruct type; simpl in E; try discriminate;
        split; discriminate.
    + intros [H1 H2]. destruct type; simpl; eauto; contradiction.
  - intros xml E.
    destruct type; simpl in E; try discriminate; injection E as <-; simpl;
      (repeat split; try exact Hbam; try reflexivity;
       [destruct (Pbi settings); [rewrite append_associative|]; reflexivity
       | auto]).
Qed.

Lemma CreateDataSetFile_spec_witness :
  exists xml,
    CreateDataSetFile "2018" SUBREAD "run/out" sample_settings = Completes xml
    /\ ds_name xml = "out"
    /\ ds_resource xml = "out.bam"
    /\ ds_index xml = Some "out.bam.pbi"
    /\ ds_path xml = "run/out.alignmentset.xml".
Proof.
  eexists. split; [reflexivity|].
  pose proof (proj2 (CreateDataSetFile_spec "2018" SUBREAD "run/out"
                       sample_settings) _ eq_refl)
    as (_ & Hname & Hres & _ & Hidx & _).
  split; [exact Hname|]. split; [exact Hres|]. split; [exact Hidx|].
  reflexivity.
Defined.
End DataSetFacts.
